(** * The site configuration [.eleventy.js]: filters and collections

    A shallow embedding of the 11ty configuration of the blog: the
    [readableDate], [random] and [getAspectClass] filters, the [image]
    shortcode and the [posts] and [photos] collections.  JavaScript numbers are IEEE 754 binary64 values,
    modelled by Rocq's primitive [float]; a JavaScript [Date] is its time
    value; [undefined] is [None].  What eleventy-img, the collection API and
    [Math.random] return are parameters; the two luxon calls of the date
    filter are modelled after the documentation of that library. *)

From Stdlib Require Import ZArith QArith Lia Lqa Bool List String Ascii Floats Uint63 Permutation Sorted.
Import ListNotations.

Set Warnings "-inexact-float".
Local Open Scope string_scope.
Local Open Scope Z_scope.

(** ** JavaScript values *)

Module JS.

(** How a block of statements (or an awaited promise) ends: normally with a
    value, or by throwing. *)
Inductive completion (A : Type) : Type :=
| Normal (a : A)
| Throw (e : string).
Arguments Normal {A} a.
Arguments Throw {A} e.

(** [x >= y] on numbers; false as soon as one side is NaN. *)
Definition geb (x y : float) : bool := (y <=? x)%float.

(** [Math.floor] on the specification side of binary64: a number with a
    non-negative exponent is an integer already; otherwise the mantissa is
    divided, rounding towards minus infinity.  Zeros, infinities and NaN are
    returned unchanged. *)
Definition SFfloor (x : spec_float) : spec_float :=
  match x with
  | S754_finite s m e =>
      if 0 <=? e then x
      else binary_normalize prec emax (cond_Zopp s (Zpos m) / 2 ^ (- e)) 0 s
  | _ => x
  end.

Definition Math_floor (x : float) : float := SF2Prim (SFfloor (Prim2SF x)).

(** A small non-negative integer as a number. *)
Definition of_int (n : Z) : float := of_uint63 (Uint63.of_Z n).

(** [array.length], an unsigned 32-bit integer, as a number. *)
Definition length_of {A : Type} (array : list A) : float :=
  of_int (Z.of_nat (List.length array)).

(** The array index a number denotes when it is used as a property key:
    [-0] and [+0] both denote ["0"], a non-negative integer denotes itself,
    anything else (a fraction, a negative number, an infinity, NaN) is not an
    array index. *)
Definition array_index (k : spec_float) : option Z :=
  match k with
  | S754_zero _ => Some 0
  | S754_finite false m e =>
      if 0 <=? e then Some (Zpos m * 2 ^ e)
      else if Zpos m mod 2 ^ (- e) =? 0 then Some (Zpos m / 2 ^ (- e))
      else None
  | _ => None
  end.

(** [array[k]]: the element at that index, [undefined] when there is none. *)
Definition get {A : Type} (array : list A) (k : float) : option A :=
  match array_index (Prim2SF k) with
  | Some i => nth_error array (Z.to_nat i)
  | None => None
  end.

(** The exact value of a finite number, as a rational. *)
Definition SF2Q (x : spec_float) : Q :=
  match x with
  | S754_finite s m e =>
      let n := cond_Zopp s (Zpos m) in
      if 0 <=? e then inject_Z (n * 2 ^ e) else Qmake n (Z.to_pos (2 ^ (- e)))
  | _ => 0%Q
  end.

Definition value (x : float) : Q := SF2Q (Prim2SF x).

End JS.

(** ** Rounding *)

(** The state of a mantissa while it is shifted right, after [k] bits, when
    the exact value is [T / D]: the kept mantissa and the round bit are the
    first digits of the value, and a sticky bit that is not set says that no
    further digit was lost. *)
Definition shr_inv (T D k : Z) (mrs : shr_record) : Prop :=
  let c := 2 * shr_m mrs + (if shr_r mrs then 1 else 0) in
  0 <= shr_m mrs
  /\ c * (2 ^ k * D) <= 2 * T < (c + 1) * (2 ^ k * D)
  /\ (shr_s mrs = false -> 2 * T = c * (2 ^ k * D)).

(** A sign, a mantissa and an exponent as a number; a mantissa of 0 is a
    zero. *)
Definition of_mantissa (s : bool) (m e : Z) : spec_float :=
  match m with
  | 0 => S754_zero s
  | Zpos p => S754_finite s p e
  | Zneg _ => S754_nan
  end.

(** ** The aspect-ratio filter *)

(** What eleventy-img reports for one generated image, and for one source
    image with [formats: ["jpeg"]]. *)
Record ImageStat : Type := { width : float; height : float }.
Record Metadata : Type := { jpeg : list ImageStat }.

(** The arguments the filter passes to the Nunjucks callback. *)
Record Callback : Type := { err : option string; res : string }.

Section AspectRatio.

(** [await Image(imagePath, {widths: [1], formats: ["jpeg"], dryRun: true})]. *)
Variable Image : string -> JS.completion Metadata.

(** The [if]/[else if] chain on the ratio; [cssClass] starts as
    ["aspect-landscape"] and keeps that value when no branch is taken. *)
Definition aspectClass (ratio : float) : string :=
  let cssClass := "aspect-landscape" in
  if (ratio <? 0.7)%float then "aspect-portrait"
  else if JS.geb ratio 0.7 && (ratio <? 1.3)%float then "aspect-square"
  else if JS.geb ratio 1.3 && (ratio <? 1.8)%float then "aspect-landscape"
  else if JS.geb ratio 1.8 then "aspect-panorama"
  else cssClass.

(** The body of the [try] block.  Reading [img.width] when
    [metadata.jpeg[0]] is [undefined] throws a [TypeError]. *)
Definition getAspectClass_try (imagePath : string) : JS.completion string :=
  match Image imagePath with
  | JS.Throw e => JS.Throw e
  | JS.Normal metadata =>
      match jpeg metadata with
      | [] => JS.Throw "TypeError"
      | img :: _ =>
          let ratio := (width img / height img)%float in
          JS.Normal (aspectClass ratio)
      end
  end.

(** The filter: [callback(null, cssClass)], or
    [callback(null, "aspect-landscape")] from the [catch] clause. *)
Definition getAspectClass (imagePath : string) : Callback :=
  match getAspectClass_try imagePath with
  | JS.Normal cssClass => {| err := None; res := cssClass |}
  | JS.Throw _ => {| err := None; res := "aspect-landscape" |}
  end.

End AspectRatio.

(** The four class names. *)
Definition aspect_labels : list string :=
  ["aspect-portrait"; "aspect-square"; "aspect-landscape"; "aspect-panorama"].

(** An image step that reports one jpeg of the given size for every path. *)
Definition sampleImage (w h : float) : string -> JS.completion Metadata :=
  fun _ => JS.Normal {| jpeg := [{| width := w; height := h |}] |}.

(** The place of a class name in the order of [aspect_labels], from the
    narrowest to the widest. *)
Definition aspect_rank (label : string) : nat :=
  if String.eqb label "aspect-portrait" then 0
  else if String.eqb label "aspect-square" then 1
  else if String.eqb label "aspect-landscape" then 2
  else 3.

(** ** The image shortcode *)

(** The options object of a call of eleventy-img, and the attributes object
    handed to [Image.generateHTML]; an entry that a call leaves out is
    [None]. *)
Record ImageOptions : Type := {
  widths : list float;
  formats : list string;
  outputDir : string;
  urlPath : option string;
  dryRun : option bool
}.

Record ImageAttributes : Type := {
  alt : option string;
  sizes : string;
  loading : string;
  decoding : string
}.

Section ImageShortcode.

(** [await Image(src, options)] and [Image.generateHTML(metadata,
    attributes)].  The shortcode hands the metadata on unread. *)
Variable Image : string -> ImageOptions -> JS.completion Metadata.
Variable generateHTML : Metadata -> ImageAttributes -> JS.completion string.

(** [imageShortcode(src, alt, sizes = "100vw")]: the default applies when
    the argument is [undefined].  There is no [try]: what a step throws
    rejects the promise of the shortcode. *)
Definition imageShortcode (src : string) (alt : option string) (sizes : option string)
  : JS.completion string :=
  let sizes := match sizes with Some s => s | None => "100vw" end in
  match Image src {| widths := [600; 1200; 1800]%float;
                     formats := ["webp"; "jpeg"];
                     outputDir := "./_site/img/";
                     urlPath := Some "/img/";
                     dryRun := None |} with
  | JS.Throw e => JS.Throw e
  | JS.Normal metadata =>
      let imageAttributes :=
        {| alt := alt; sizes := sizes; loading := "lazy"; decoding := "async" |} in
      generateHTML metadata imageAttributes
  end.

(** The call of the aspect-ratio filter, with its options. *)
Definition aspectImage (imagePath : string) : JS.completion Metadata :=
  Image imagePath {| widths := [1]%float;
                     formats := ["jpeg"];
                     outputDir := "./_site/img/";
                     urlPath := None;
                     dryRun := Some true |}.

End ImageShortcode.

(** ** The collections *)

Section Collections.

(** A content item (a template with its front matter); opaque here. *)
Variable Item : Type.

(** The collection API handed to a collection builder. *)
Record CollectionApi : Type := { getFilteredByGlob : string -> list Item }.

Definition Builder : Type := CollectionApi -> list Item.

(** The part of the 11ty configuration object the claims are about. *)
Record UserConfig : Type := {
  passthroughCopies : list string;
  collections : list (string * Builder)
}.

Definition addPassthroughCopy (path : string) (c : UserConfig) : UserConfig :=
  {| passthroughCopies := passthroughCopies c ++ [path];
     collections := collections c |}.

Definition addCollection (name : string) (b : Builder) (c : UserConfig) : UserConfig :=
  {| passthroughCopies := passthroughCopies c;
     collections := collections c ++ [(name, b)] |}.

Definition emptyConfig : UserConfig :=
  {| passthroughCopies := []; collections := [] |}.

(** The two builders, as written in the configuration.  [Array.reverse]
    reverses the array it is called on and returns it. *)
Definition posts : Builder :=
  fun collectionApi => rev (getFilteredByGlob collectionApi "src/posts/*.md").

Definition photos : Builder :=
  fun collectionApi => rev (getFilteredByGlob collectionApi "src/photos/*.md").

(** [module.exports]: the calls on [eleventyConfig], in order. *)
Definition configure (eleventyConfig : UserConfig) : UserConfig :=
  let c1 := addPassthroughCopy "src/css" eleventyConfig in
  let c2 := addPassthroughCopy "src/photos" c1 in
  let c3 := addPassthroughCopy ".nojekyll" c2 in
  let c4 := addCollection "posts" posts c3 in
  addCollection "photos" photos c4.

Fixpoint findBuilder (name : string) (l : list (string * Builder)) : option Builder :=
  match l with
  | [] => None
  | (n, b) :: rest => if String.eqb n name then Some b else findBuilder name rest
  end.

(** The collection of that name, as the site generator computes it. *)
Definition collection (c : UserConfig) (name : string) (api : CollectionApi)
  : option (list Item) :=
  match findBuilder name (collections c) with
  | Some b => Some (b api)
  | None => None
  end.

(** The collection builder in the words of the specification: the items
    matching a glob, in directory-listing order, reversed. *)
Definition spec_builder (glob : string) : Builder :=
  fun api => rev (getFilteredByGlob api glob).

(** What it is for [result] to be the listing [files] reversed: the same
    length, item [i] of the one is item [N - 1 - i] of the other, and the same
    items with the same multiplicities. *)
Definition reversed_listing (files result : list Item) : Prop :=
  result = rev files
  /\ List.length result = List.length files
  /\ (forall i, (i < List.length files)%nat ->
        nth_error result i = nth_error files (List.length files - 1 - i))
  /\ Permutation files result.

End Collections.

Arguments getFilteredByGlob {Item} _ _.
Arguments posts {Item} _.
Arguments photos {Item} _.
Arguments spec_builder {Item} _ _.
Arguments collection {Item} _ _ _.
Arguments configure {Item} _.
Arguments emptyConfig {Item}.
Arguments reversed_listing {Item} _ _.

(** A collection API over file names that lists the same files for every
    glob. *)
Definition sampleApi (files : list string) : CollectionApi string :=
  {| getFilteredByGlob := fun _ => files |}.

(** ** Dates *)

(** The time value of a JavaScript [Date] and the calendar functions of the
    language standard (the ones behind [getUTCFullYear], [getUTCMonth] and
    [getUTCDate]). *)
Module JSDate.

(** A [Date] holds an instant: milliseconds since 1970-01-01T00:00:00Z, or
    NaN (an invalid date).  It records no time zone. *)
Inductive Date : Type :=
| InvalidDate
| TimeValue (t : Z).

Definition msPerDay : Z := 86400000.

Definition Day (t : Z) : Z := t / msPerDay.

Definition DayFromYear (y : Z) : Z :=
  365 * (y - 1970) + (y - 1969) / 4 - (y - 1901) / 100 + (y - 1601) / 400.

Definition TimeFromYear (y : Z) : Z := msPerDay * DayFromYear y.

(** The largest [y] with [TimeFromYear y <= t]: an estimate from the mean
    length of a year, corrected by at most one. *)
Definition YearFromTime (t : Z) : Z :=
  let d := Day t in
  let y := 1970 + (400 * d) / 146097 in
  if d <? DayFromYear y then y - 1
  else if DayFromYear (y + 1) <=? d then y + 1
  else y.

Definition DaysInYear (y : Z) : Z :=
  if negb (y mod 4 =? 0) then 365
  else if negb (y mod 100 =? 0) then 366
  else if negb (y mod 400 =? 0) then 365
  else 366.

Definition InLeapYear (t : Z) : Z :=
  if DaysInYear (YearFromTime t) =? 366 then 1 else 0.

Definition DayWithinYear (t : Z) : Z := Day t - DayFromYear (YearFromTime t).

(** Months are numbered from 0. *)
Definition MonthFromTime (t : Z) : Z :=
  let d := DayWithinYear t in
  let l := InLeapYear t in
  if d <? 31 then 0
  else if d <? 59 + l then 1
  else if d <? 90 + l then 2
  else if d <? 120 + l then 3
  else if d <? 151 + l then 4
  else if d <? 181 + l then 5
  else if d <? 212 + l then 6
  else if d <? 243 + l then 7
  else if d <? 273 + l then 8
  else if d <? 304 + l then 9
  else if d <? 334 + l then 10
  else 11.

Definition DateFromTime (t : Z) : Z :=
  let d := DayWithinYear t in
  let l := InLeapYear t in
  match MonthFromTime t with
  | 0 => d + 1
  | 1 => d - 30
  | 2 => d - 58 - l
  | 3 => d - 89 - l
  | 4 => d - 119 - l
  | 5 => d - 150 - l
  | 6 => d - 180 - l
  | 7 => d - 211 - l
  | 8 => d - 242 - l
  | 9 => d - 272 - l
  | 10 => d - 303 - l
  | _ => d - 333 - l
  end.

(** The number of days of the year before month [m] (from 0). *)
Definition daysBeforeMonth (leap : Z) (m : Z) : Z :=
  match m with
  | 0 => 0
  | 1 => 31
  | 2 => 59 + leap
  | 3 => 90 + leap
  | 4 => 120 + leap
  | 5 => 151 + leap
  | 6 => 181 + leap
  | 7 => 212 + leap
  | 8 => 243 + leap
  | 9 => 273 + leap
  | 10 => 304 + leap
  | _ => 334 + leap
  end.

Definition daysInMonth (leap : Z) (m : Z) : Z :=
  match m with
  | 1 => 28 + leap
  | 3 | 5 | 8 | 10 => 30
  | _ => 31
  end.

(** The day number of a calendar date: year, month from 0, day of the
    month from 1 ([MakeDay] on a date in range). *)
Definition MakeDay (y m d : Z) : Z :=
  DayFromYear y + daysBeforeMonth (if DaysInYear y =? 366 then 1 else 0) m + d - 1.

End JSDate.

(** The part of luxon the date filter calls.  luxon is a dependency of the
    site, its code is not part of the repository; the definitions follow its
    documented behaviour: [DateTime.fromJSDate] keeps the instant and takes
    the zone from the options (the default zone only when the option is
    absent); [toFormat] prints an invalid [DateTime] as ["Invalid DateTime"]
    and otherwise replaces each token of the format by the field of the local
    time in the zone, [yyyy] padded to at least four digits, [MM] and [dd] to
    two. *)
Module Luxon.

Inductive Zone : Type :=
| SystemZone
| FixedOffsetZone (offset : Z)
| UnsupportedZone (name : string).

Definition utcInstance : Zone := FixedOffsetZone 0.

(** The process: the offset (in minutes) of its local time zone at an
    instant. *)
Record Process : Type := { localOffset : Z -> Z }.

(** [Settings.defaultZone], which the configuration leaves at the system
    zone. *)
Definition defaultZone : Zone := SystemZone.

(** The [zone] entry of the options object.  Named IANA zones and offset
    specifiers, which the configuration does not use, are not modelled and
    count as unsupported. *)
Definition normalizeZone (input : option string) (default : Zone) : Zone :=
  match input with
  | None => default
  | Some name =>
      if String.eqb name "utc" || String.eqb name "gmt" then utcInstance
      else if String.eqb name "local" || String.eqb name "system" then SystemZone
      else if String.eqb name "default" then default
      else UnsupportedZone name
  end.

Inductive DateTime : Type :=
| Invalid (reason : string)
| Valid (ts : Z) (zone : Zone).

Definition fromJSDate (date : JSDate.Date) (zone : option string) : DateTime :=
  match date with
  | JSDate.InvalidDate => Invalid "invalid input"
  | JSDate.TimeValue ts =>
      match normalizeZone zone defaultZone with
      | UnsupportedZone name => Invalid "unsupported zone"
      | zoneToUse => Valid ts zoneToUse
      end
  end.

Definition offset (p : Process) (zone : Zone) (ts : Z) : Z :=
  match zone with
  | SystemZone => localOffset p ts
  | FixedOffsetZone o => o
  | UnsupportedZone _ => 0
  end.

(** The local time of the instant in the zone, as a time value. *)
Definition localTime (p : Process) (ts : Z) (zone : Zone) : Z :=
  ts + offset p zone ts * 60 * 1000.

Definition year (p : Process) (ts : Z) (zone : Zone) : Z :=
  JSDate.YearFromTime (localTime p ts zone).
Definition month (p : Process) (ts : Z) (zone : Zone) : Z :=
  JSDate.MonthFromTime (localTime p ts zone) + 1.
Definition day (p : Process) (ts : Z) (zone : Zone) : Z :=
  JSDate.DateFromTime (localTime p ts zone).

(** Decimal digits of a non-negative integer. *)
Definition digit (n : Z) : ascii := ascii_of_nat (48 + Z.to_nat n).

Fixpoint decimal_loop (fuel : nat) (n : Z) (acc : string) : string :=
  match fuel with
  | O => acc
  | S fuel' =>
      let acc' := String (digit (n mod 10)) acc in
      if n <? 10 then acc' else decimal_loop fuel' (n / 10) acc'
  end.

Definition decimal (n : Z) : string :=
  decimal_loop (S (Z.to_nat (Z.log2 n))) n "".

Fixpoint zeros (k : nat) : string :=
  match k with
  | O => ""
  | S k' => String "0" (zeros k')
  end.

(** [padStart(input, n)]: zeros in front up to [n] characters, the sign of
    a negative number before them. *)
Definition padStart (input : Z) (n : nat) : string :=
  if input <? 0 then
    let s := decimal (- input) in String "-" (zeros (n - String.length s) ++ s)
  else
    let s := decimal input in zeros (n - String.length s) ++ s.

(** The format is cut into runs of one repeated character (quoted literal
    text, which the format of the filter does not use, is left out). *)
Fixpoint parseFormat_loop (fmt : string) (currentFull : string) (splits : list string)
  : list string :=
  match fmt with
  | EmptyString =>
      match currentFull with
      | EmptyString => splits
      | _ => splits ++ [currentFull]
      end
  | String c rest =>
      match currentFull with
      | EmptyString => parseFormat_loop rest (String c "") splits
      | String current _ =>
          if Ascii.eqb c current then parseFormat_loop rest (currentFull ++ String c "") splits
          else parseFormat_loop rest (String c "") (splits ++ [currentFull])
      end
  end.

Definition parseFormat (fmt : string) : list string := parseFormat_loop fmt "" [].

(** The calendar-date tokens; any other run is copied as it is. *)
Definition tokenToString (p : Process) (ts : Z) (zone : Zone) (token : string) : string :=
  if String.eqb token "y" then padStart (year p ts zone) 0
  else if String.eqb token "yyyy" then padStart (year p ts zone) 4
  else if String.eqb token "M" then padStart (month p ts zone) 0
  else if String.eqb token "MM" then padStart (month p ts zone) 2
  else if String.eqb token "d" then padStart (day p ts zone) 0
  else if String.eqb token "dd" then padStart (day p ts zone) 2
  else token.

Definition toFormat (p : Process) (dt : DateTime) (fmt : string) : string :=
  match dt with
  | Invalid _ => "Invalid DateTime"
  | Valid ts zone => String.concat "" (map (tokenToString p ts zone) (parseFormat fmt))
  end.

End Luxon.

(** ** The date filter *)

(** [DateTime.fromJSDate(dateObj, {zone: 'utc'}).toFormat("yyyy-MM-dd")], run
    in a process [p]. *)
Definition readableDate (p : Luxon.Process) (dateObj : JSDate.Date) : string :=
  Luxon.toFormat p (Luxon.fromJSDate dateObj (Some "utc")) "yyyy-MM-dd".

(** A ten-character string of the shape [dddd-dd-dd]. *)
Definition is_digit (c : ascii) : bool :=
  (48 <=? nat_of_ascii c)%nat && (nat_of_ascii c <=? 57)%nat.

Definition is_yyyy_MM_dd (s : string) : bool :=
  match s with
  | String y1 (String y2 (String y3 (String y4 (String h1
      (String m1 (String m2 (String h2 (String d1 (String d2 EmptyString))))))))) =>
      is_digit y1 && is_digit y2 && is_digit y3 && is_digit y4
      && Ascii.eqb h1 "-" && is_digit m1 && is_digit m2
      && Ascii.eqb h2 "-" && is_digit d1 && is_digit d2
  | _ => false
  end.

(** A string of decimal digits. *)
Fixpoint all_digits (s : string) : bool :=
  match s with
  | EmptyString => true
  | String c rest => is_digit c && all_digits rest
  end.

(** Reading a decimal numeral back. *)
Fixpoint numeral_loop (s : string) (acc : Z) : Z :=
  match s with
  | EmptyString => acc
  | String c rest => numeral_loop rest (10 * acc + Z.of_nat (nat_of_ascii c) - 48)
  end.

Definition numeral (s : string) : Z := numeral_loop s 0.

(** The calendar date a [yyyy-MM-dd] string names: year, month (from 1) and
    day of the month. *)
Definition parse_yyyy_MM_dd (s : string) : Z * Z * Z :=
  (numeral (substring 0 4 s), numeral (substring 5 2 s), numeral (substring 8 2 s)).

(** ** The random filter *)

(** [array[Math.floor(Math.random() * array.length)]]; the first argument is
    the number the call of [Math.random] returns. *)
Definition random {A : Type} (Math_random : float) (array : list A) : option A :=
  JS.get array (JS.Math_floor (Math_random * JS.length_of array)%float).

(** * Properties *)

(** ** Facts about binary64 numbers *)

Module B64.

Lemma Prim2SF_zero : Prim2SF 0%float = S754_zero false.
Proof. reflexivity. Qed.

Lemma Prim2SF_infinity : Prim2SF infinity = S754_infinity false.
Proof. reflexivity. Qed.

(** Swapping the operands of a comparison reverses its outcome. *)
Lemma SFcompare_swap (x y : spec_float) :
  SFcompare y x = option_map CompOpp (SFcompare x y).
Proof.
  destruct x as [sx|sx| |sx mx ex], y as [sy|sy| |sy my ey]; simpl;
    try reflexivity; try (destruct sx; reflexivity); try (destruct sy; reflexivity);
    try (destruct sx, sy; reflexivity).
  destruct sx, sy; try reflexivity; f_equal;
    rewrite (Z.compare_antisym ex ey);
    change (Pos.compare_cont Eq my mx) with (Pos.compare my mx);
    change (Pos.compare_cont Eq mx my) with (Pos.compare mx my);
    rewrite (Pos.compare_antisym mx my);
    destruct (ex ?= ey); simpl; try reflexivity;
    destruct (mx ?= my)%positive; reflexivity.
Qed.

Lemma SFcompare_refl (x : spec_float) :
  x <> S754_nan -> SFcompare x x = Some Eq.
Proof.
  destruct x as [s|s| |s m e]; simpl; intros H; try reflexivity; try congruence.
  - destruct s; reflexivity.
  - rewrite Z.compare_refl.
    change (Pos.compare_cont Eq m m) with (Pos.compare m m).
    rewrite Pos.compare_refl. destruct s; reflexivity.
Qed.

Lemma SFcompare_some (x y : spec_float) :
  x <> S754_nan -> y <> S754_nan -> exists c, SFcompare x y = Some c.
Proof.
  destruct x, y; simpl; intros; try congruence; eexists; reflexivity.
Qed.

(** Strict order is transitive. *)
Lemma SFcompare_lt_trans (x y z : spec_float) :
  SFcompare x y = Some Lt -> SFcompare y z = Some Lt -> SFcompare x z = Some Lt.
Proof.
  destruct x as [sx|sx| |sx mx ex], y as [sy|sy| |sy my ey], z as [sz|sz| |sz mz ez];
    simpl; try discriminate; try (destruct sx; discriminate);
    try (destruct sy; discriminate); try (destruct sz; discriminate);
    try (destruct sx, sy; discriminate); try (destruct sy, sz; discriminate);
    try (destruct sx, sy, sz; (discriminate || reflexivity)).
  change (Pos.compare_cont Eq mx my) with (Pos.compare mx my).
  change (Pos.compare_cont Eq my mz) with (Pos.compare my mz).
  change (Pos.compare_cont Eq mx mz) with (Pos.compare mx mz).
  destruct sx, sy, sz; try discriminate; try reflexivity; intros H1 H2; f_equal;
    injection H1 as H1; injection H2 as H2;
    destruct (Z.compare_spec ex ey), (Z.compare_spec ey ez); try discriminate;
    destruct (Z.compare_spec ex ez); try reflexivity; try lia;
    destruct (Pos.compare_spec mx my), (Pos.compare_spec my mz); try discriminate;
    destruct (Pos.compare_spec mx mz); try reflexivity; lia.
Qed.

Lemma is_nan_spec (x : float) : is_nan x = false <-> Prim2SF x <> S754_nan.
Proof.
  unfold is_nan. rewrite FloatAxioms.eqb_spec. unfold SFeqb. split.
  - intros H E. rewrite E in H. discriminate.
  - intros H. rewrite (SFcompare_refl _ H). reflexivity.
Qed.

Lemma is_nan_true (x : float) : is_nan x = true <-> Prim2SF x = S754_nan.
Proof.
  split; intros H.
  - destruct (Prim2SF x) eqn:E; try reflexivity;
      assert (N : is_nan x = false) by (apply is_nan_spec; rewrite E; discriminate);
      congruence.
  - destruct (is_nan x) eqn:E; [reflexivity|].
    apply is_nan_spec in E. contradiction.
Qed.

(** Any comparison with NaN is false. *)
Lemma ltb_nan_l (x y : float) : is_nan x = true -> (x <? y)%float = false.
Proof.
  intros H. apply is_nan_true in H. rewrite FloatAxioms.ltb_spec, H. reflexivity.
Qed.

Lemma leb_nan_r (x y : float) : is_nan y = true -> (x <=? y)%float = false.
Proof.
  intros H. apply is_nan_true in H. rewrite FloatAxioms.leb_spec, H.
  unfold SFleb. destruct (Prim2SF x); reflexivity.
Qed.

(** On numbers, [y <= x] is the negation of [x < y]. *)
Lemma leb_negb_ltb (x y : float) :
  is_nan x = false -> is_nan y = false -> (y <=? x)%float = negb (x <? y)%float.
Proof.
  intros Hx Hy. apply is_nan_spec in Hx, Hy.
  rewrite FloatAxioms.leb_spec, FloatAxioms.ltb_spec. unfold SFleb, SFltb.
  rewrite (SFcompare_swap (Prim2SF x) (Prim2SF y)).
  destruct (SFcompare_some _ _ Hx Hy) as [c Hc]. rewrite Hc.
  destruct c; reflexivity.
Qed.

Lemma ltb_trans (x y z : float) :
  (x <? y)%float = true -> (y <? z)%float = true -> (x <? z)%float = true.
Proof.
  rewrite !FloatAxioms.ltb_spec. unfold SFltb. intros H1 H2.
  destruct (SFcompare (Prim2SF x) (Prim2SF y)) as [[]|] eqn:E1; try discriminate.
  destruct (SFcompare (Prim2SF y) (Prim2SF z)) as [[]|] eqn:E2; try discriminate.
  rewrite (SFcompare_lt_trans _ _ _ E1 E2). reflexivity.
Qed.

(** A positive finite number has a mantissa and an exponent. *)
Lemma positive_finite (x : float) :
  (0 <? x)%float = true -> is_finite x = true ->
  exists m e, Prim2SF x = S754_finite false m e.
Proof.
  intros Hpos Hfin. rewrite FloatAxioms.ltb_spec, Prim2SF_zero in Hpos.
  unfold is_finite, is_infinity in Hfin.
  rewrite FloatAxioms.eqb_spec, abs_spec, Prim2SF_infinity in Hfin.
  destruct (Prim2SF x) as [s|s| |s m e]; try discriminate.
  - rewrite orb_true_r in Hfin. discriminate.
  - destruct s; [discriminate|]. eauto.
Qed.

(** Shifting right and rounding keep a mantissa non-negative. *)
Lemma iter_pos_invariant {A : Type} (f : A -> A) (P : Z -> A -> Prop) :
  (forall k x, 0 <= k -> P k x -> P (k + 1) (f x)) ->
  forall p k x, 0 <= k -> P k x -> P (k + Zpos p) (iter_pos f p x).
Proof.
  intros Hf. induction p as [p IH|p IH|]; intros k x Hk Hx; simpl.
  - replace (k + Zpos p~1) with ((k + 1 + Zpos p) + Zpos p) by lia.
    apply IH; [lia|]. apply IH; [lia|]. apply Hf; assumption.
  - replace (k + Zpos p~0) with ((k + Zpos p) + Zpos p) by lia.
    apply IH; [lia|]. apply IH; assumption.
  - apply Hf; assumption.
Qed.

Lemma shr_1_nonneg (mrs : shr_record) : 0 <= shr_m mrs -> 0 <= shr_m (shr_1 mrs).
Proof.
  destruct mrs as [m r s]. simpl. destruct m as [|[p|p|]|p]; simpl; lia.
Qed.

Lemma shr_nonneg (mrs : shr_record) (e n : Z) :
  0 <= shr_m mrs -> 0 <= shr_m (fst (shr mrs e n)).
Proof.
  intros H. destruct n as [|p|p]; simpl; try assumption.
  apply (iter_pos_invariant shr_1 (fun _ x => 0 <= shr_m x)) with (k := 0);
    auto using shr_1_nonneg with zarith.
Qed.

Lemma shr_record_of_loc_m (m : Z) (l : location) : shr_m (shr_record_of_loc m l) = m.
Proof. destruct l as [|[]]; reflexivity. Qed.

Lemma round_nearest_even_nonneg (m : Z) (l : location) :
  0 <= m -> 0 <= round_nearest_even m l.
Proof.
  intros H. destruct l as [|[]]; simpl; try lia. destruct (Z.even m); lia.
Qed.

Lemma binary_round_aux_not_nan (s : bool) (m e : Z) (l : location) :
  0 <= m -> binary_round_aux prec emax s m e l <> S754_nan.
Proof.
  intros Hm. unfold binary_round_aux, shr_fexp.
  set (n1 := fexp prec emax (Zdigits2 m + e) - e).
  pose proof (shr_nonneg (shr_record_of_loc m l) e n1) as H1.
  rewrite shr_record_of_loc_m in H1. specialize (H1 Hm).
  destruct (shr (shr_record_of_loc m l) e n1) as [mrs1 e1]. simpl in H1.
  set (m2 := round_nearest_even (shr_m mrs1) (loc_of_shr_record mrs1)).
  assert (H2 : 0 <= m2) by (apply round_nearest_even_nonneg; assumption).
  set (n2 := fexp prec emax (Zdigits2 m2 + e1) - e1).
  pose proof (shr_nonneg (shr_record_of_loc m2 loc_Exact) e1 n2) as H3.
  simpl shr_m in H3 at 1. specialize (H3 H2).
  destruct (shr (shr_record_of_loc m2 loc_Exact) e1 n2) as [mrs2 e2]. simpl in H3.
  destruct (shr_m mrs2) as [|p|p]; try discriminate; try lia.
  destruct (e2 <=? emax - prec); discriminate.
Qed.

(** The quotient of two positive finite numbers is a number. *)
Lemma div_positive_not_nan (x y : float) :
  (0 <? x)%float = true -> is_finite x = true ->
  (0 <? y)%float = true -> is_finite y = true ->
  is_nan (x / y)%float = false.
Proof.
  intros Hx Fx Hy Fy.
  destruct (positive_finite x Hx Fx) as (mx & ex & Ex).
  destruct (positive_finite y Hy Fy) as (my & ey & Ey).
  apply is_nan_spec. rewrite FloatAxioms.div_spec, Ex, Ey. unfold SF64div, SFdiv.
  destruct (SFdiv_core_binary prec emax (Zpos mx) ex (Zpos my) ey) as [[mz ez] lz] eqn:E.
  apply binary_round_aux_not_nan.
  unfold SFdiv_core_binary in E.
  set (s := ex - ey - _) in E.
  set (m' := match s with Z0 => Zpos mx | Zpos _ => Z.shiftl (Zpos mx) s | Zneg _ => 0 end) in E.
  assert (Hm' : 0 <= m').
  { subst m'. destruct s; try lia. apply Z.shiftl_nonneg. lia. }
  pose proof (Z_div_mod m' (Zpos my) eq_refl) as D.
  destruct (Z.div_eucl m' (Zpos my)) as [q r]. injection E as <- _ _.
  nia.
Qed.

(** *** Rounding to 53 bits *)

Lemma fexp_eq x : fexp prec emax x = Z.max (x - 53) (-1074).
Proof. reflexivity. Qed.

Lemma digits2_pos_bounds (m : positive) :
  2 ^ (Zpos (digits2_pos m) - 1) <= Zpos m < 2 ^ Zpos (digits2_pos m).
Proof.
  induction m as [m IH|m IH|]; cbn [digits2_pos].
  - rewrite Pos2Z.inj_succ.
    replace (Z.succ (Zpos (digits2_pos m)) - 1) with (Z.succ (Zpos (digits2_pos m) - 1)) by lia.
    rewrite !Z.pow_succ_r by lia. lia.
  - rewrite Pos2Z.inj_succ.
    replace (Z.succ (Zpos (digits2_pos m)) - 1) with (Z.succ (Zpos (digits2_pos m) - 1)) by lia.
    rewrite !Z.pow_succ_r by lia. lia.
  - cbn. lia.
Qed.

(** A positive number below [2 ^ b] has at most [b] binary digits. *)
Lemma digits2_pos_le (m : positive) (b : Z) :
  Zpos m < 2 ^ b -> Zpos (digits2_pos m) <= b.
Proof.
  intros H. pose proof (digits2_pos_bounds m) as [L _].
  destruct (Z_le_gt_dec (Zpos (digits2_pos m)) b) as [|G]; [assumption|exfalso].
  assert (2 ^ b <= 2 ^ (Zpos (digits2_pos m) - 1)).
  { destruct (Z_lt_le_dec b 0).
    - rewrite (Z.pow_neg_r 2 b) by lia. apply Z.pow_nonneg. lia.
    - apply Z.pow_le_mono_r; lia. }
  lia.
Qed.

Lemma digits2_pos_ge (m : positive) (b : Z) :
  2 ^ b <= Zpos m -> 0 <= b -> b + 1 <= Zpos (digits2_pos m).
Proof.
  intros H Hb. pose proof (digits2_pos_bounds m) as [_ U].
  destruct (Z_le_gt_dec (b + 1) (Zpos (digits2_pos m))) as [|G]; [assumption|exfalso].
  assert (2 ^ Zpos (digits2_pos m) <= 2 ^ b) by (apply Z.pow_le_mono_r; lia).
  lia.
Qed.

Lemma digits2_pos_eq (m : positive) (b : Z) :
  2 ^ (b - 1) <= Zpos m < 2 ^ b -> 0 < b -> Zpos (digits2_pos m) = b.
Proof.
  intros [L U] Hb. pose proof (digits2_pos_le m b U).
  pose proof (digits2_pos_ge m (b - 1) L ltac:(lia)). lia.
Qed.

Lemma iter_xO_spec (m k : positive) :
  Zpos (Pos.iter xO m k) = Zpos m * 2 ^ Zpos k
  /\ digits2_pos (Pos.iter xO m k) = (digits2_pos m + k)%positive.
Proof.
  induction k as [|k [IH1 IH2]] using Pos.peano_ind.
  - cbn [Pos.iter]. split; [lia|]. cbn [digits2_pos]. lia.
  - rewrite Pos.iter_succ. split.
    + rewrite Pos2Z.inj_xO, IH1, Pos2Z.inj_succ, Z.pow_succ_r by lia. lia.
    + cbn [digits2_pos]. rewrite IH2. lia.
Qed.

Lemma shr_1_inv (T D k : Z) (mrs : shr_record) :
  0 <= k -> 0 < D -> shr_inv T D k mrs -> shr_inv T D (k + 1) (shr_1 mrs).
Proof.
  intros Hk HD (H0 & [L U] & X). destruct mrs as [m r s]. cbn [shr_m shr_r shr_s] in *.
  assert (P : 0 < 2 ^ k * D) by (apply Z.mul_pos_pos; [apply Z.pow_pos_nonneg|]; lia).
  unfold shr_inv. rewrite Z.pow_add_r, Z.pow_1_r by lia.
  replace (2 ^ k * 2 * D) with (2 * (2 ^ k * D)) by ring.
  set (Y := 2 ^ k * D) in *.
  assert (Xe : r || s = false -> 2 * T = 2 * m * Y).
  { intros E. apply orb_false_elim in E. destruct E as [-> ->]. specialize (X eq_refl). lia. }
  destruct m as [|[p|p|]|p]; cbn [shr_1 shr_m shr_r shr_s]; try lia;
    (split; [lia|]); (split; [destruct r; nia|]); intros E; specialize (Xe E); nia.
Qed.

Lemma shr_inv_spec (T D e n : Z) (mrs : shr_record) :
  0 < D -> shr_inv T D 0 mrs ->
  let k := Z.max 0 n in
  snd (shr mrs e n) = e + k /\ shr_inv T D k (fst (shr mrs e n)).
Proof.
  intros HD H k. subst k. destruct n as [|p|p]; cbn [shr fst snd].
  - split; [lia|exact H].
  - split; [lia|]. replace (Z.max 0 (Zpos p)) with (0 + Zpos p) by lia.
    apply (iter_pos_invariant shr_1 (shr_inv T D)); [|lia|exact H].
    intros k x Hk Hx. apply shr_1_inv; assumption.
  - split; [lia|exact H].
Qed.

Lemma shr_inv_exact (M : Z) : 0 <= M -> shr_inv M 1 0 (Build_shr_record M false false).
Proof. intros H. unfold shr_inv. cbn. repeat split; lia. Qed.

(** Rounding to nearest is within half a unit of the exact value. *)
Lemma round_nearest_even_inv (T D k : Z) (mrs : shr_record) :
  0 <= k -> 0 < D -> shr_inv T D k mrs ->
  let m := round_nearest_even (shr_m mrs) (loc_of_shr_record mrs) in
  0 <= m
  /\ 2 * m * (2 ^ k * D) <= 2 * T + 2 ^ k * D
  /\ 2 * T <= 2 * m * (2 ^ k * D) + 2 ^ k * D.
Proof.
  intros Hk HD (H0 & [L U] & X). destruct mrs as [m r s]. cbn [shr_m shr_r shr_s] in *.
  assert (P : 0 < 2 ^ k * D) by (apply Z.mul_pos_pos; [apply Z.pow_pos_nonneg|]; lia).
  set (Y := 2 ^ k * D) in *.
  destruct r, s; cbn [loc_of_shr_record round_nearest_even];
    try specialize (X eq_refl); try (repeat split; nia).
  destruct (Z.even m); repeat split; nia.
Qed.

(** Rounding a mantissa [mx] at exponent [ex] that stands for the exact
    value [T / D] (times [2 ^ ex]): the mantissa is shifted by [k1] bits to
    the precision and rounded to nearest, [m2], then shifted by [k2] more
    bits when rounding carried, [m3]. *)
Lemma binary_round_aux_inv (s : bool) (mx ex : Z) (lx : location) (T D : Z) :
  0 < D -> shr_inv T D 0 (shr_record_of_loc mx lx) ->
  let k1 := Z.max 0 (fexp prec emax (Zdigits2 mx + ex) - ex) in
  let e1 := ex + k1 in
  exists m2 m3,
    let k2 := Z.max 0 (fexp prec emax (Zdigits2 m2 + e1) - e1) in
    0 <= m2
    /\ 2 * m2 * (2 ^ k1 * D) <= 2 * T + 2 ^ k1 * D
    /\ 2 * T <= 2 * m2 * (2 ^ k1 * D) + 2 ^ k1 * D
    /\ 0 <= m3 /\ m3 * 2 ^ k2 <= m2 < (m3 + 1) * 2 ^ k2
    /\ binary_round_aux prec emax s mx ex lx =
       match m3 with
       | 0 => S754_zero s
       | Zpos p => if e1 + k2 <=? emax - prec then S754_finite s p (e1 + k2)
                   else S754_infinity s
       | Zneg _ => S754_nan
       end.
Proof.
  intros HD H k1 e1. unfold binary_round_aux, shr_fexp.
  pose proof (shr_inv_spec T D ex (fexp prec emax (Zdigits2 mx + ex) - ex) _ HD H) as [E1 B1].
  fold k1 in E1, B1. fold e1 in E1.
  destruct (shr (shr_record_of_loc mx lx) ex (fexp prec emax (Zdigits2 mx + ex) - ex))
    as [mrs1 e1'].
  cbn [fst snd] in E1, B1. subst e1'.
  pose proof (round_nearest_even_inv T D k1 mrs1 ltac:(lia) HD B1) as (H2 & U2 & L2).
  set (m2 := round_nearest_even (shr_m mrs1) (loc_of_shr_record mrs1)) in *.
  cbn [shr_record_of_loc].
  pose proof (shr_inv_spec m2 1 e1 (fexp prec emax (Zdigits2 m2 + e1) - e1) _ ltac:(lia)
                (shr_inv_exact m2 H2)) as [E2 B3].
  destruct (shr (Build_shr_record m2 false false) e1 (fexp prec emax (Zdigits2 m2 + e1) - e1))
    as [mrs2 e2].
  cbn [fst snd] in E2, B3. subst e2. destruct B3 as (H3 & [L3 U3] & _).
  exists m2, (shr_m mrs2). cbn zeta.
  set (k2 := Z.max 0 (fexp prec emax (Zdigits2 m2 + e1) - e1)) in *.
  assert (0 < 2 ^ k2) by (apply Z.pow_pos_nonneg; lia).
  rewrite Z.mul_1_r in L3, U3.
  repeat split; try assumption.
  - destruct (shr_r mrs2); nia.
  - destruct (shr_r mrs2); nia.
Qed.

(** A positive integer below [2 ^ 53] is a binary64 number: its mantissa is
    the integer shifted left to 53 digits. *)
Lemma binary_normalize_small (n : positive) :
  Zpos n < 2 ^ 53 ->
  let d := Zpos (digits2_pos n) in
  exists m, binary_normalize prec emax (Zpos n) 0 false = S754_finite false m (d - 53)
            /\ Zpos m = Zpos n * 2 ^ (53 - d)
            /\ Zpos (digits2_pos m) = 53.
Proof.
  intros Hn d. pose proof (digits2_pos_le n 53 Hn) as Hd. fold d in Hd.
  assert (Hd0 : 0 < d) by (subst d; lia).
  cbn [binary_normalize]. unfold binary_round.
  rewrite fexp_eq. rewrite Z.add_0_r. fold d.
  replace (Z.max (d - 53) (-1074)) with (d - 53) by lia.
  assert (A : exists m, shl_align n 0 (d - 53) = (m, d - 53)
              /\ Zpos m = Zpos n * 2 ^ (53 - d) /\ Zpos (digits2_pos m) = 53).
  { unfold shl_align. rewrite Z.sub_0_r.
    destruct (d - 53) as [|p|p] eqn:Ed; try lia.
    - exists n. replace (53 - d) with 0 by lia. rewrite Z.pow_0_r.
      repeat split; lia.
    - exists (Pos.iter xO n p). destruct (iter_xO_spec n p) as [I1 I2].
      replace (53 - d) with (Zpos p) by lia.
      repeat split; try assumption. rewrite I2. fold d in I2 |- *. lia. }
  destruct A as (m & -> & Hm & Dm). exists m.
  split; [|split; assumption].
  unfold binary_round_aux, shr_fexp. cbn [shr_record_of_loc Zdigits2].
  rewrite Dm, fexp_eq.
  replace (Z.max (53 + (d - 53) - 53) (-1074) - (d - 53)) with 0 by lia.
  cbn [shr round_nearest_even loc_of_shr_record shr_m shr_r shr_s Zdigits2].
  rewrite Dm, fexp_eq.
  replace (Z.max (53 + (d - 53) - 53) (-1074) - (d - 53)) with 0 by lia.
  cbn [shr shr_m].
  destruct (Z.leb_spec (d - 53) (emax - prec)) as [|G]; [reflexivity|].
  unfold emax, prec in G. lia.
Qed.

(** *** Numbers of the unit interval *)

Lemma Prim2SF_one : Prim2SF 1%float = S754_finite false 4503599627370496 (-52).
Proof. reflexivity. Qed.

Lemma SFltb_finite (m1 m2 : positive) (e1 e2 : Z) :
  SFltb (S754_finite false m1 e1) (S754_finite false m2 e2) = true ->
  e1 < e2 \/ (e1 = e2 /\ Zpos m1 < Zpos m2).
Proof.
  unfold SFltb, SFcompare.
  change (Pos.compare_cont Eq m1 m2) with (Pos.compare m1 m2).
  destruct (Z.compare_spec e1 e2); try discriminate; [|left; assumption].
  destruct (Pos.compare_spec m1 m2); try discriminate. right. split; [assumption|lia].
Qed.

(** A number in the unit interval is a zero, or has a mantissa below
    [2 ^ 53] and an exponent of at most [-53]. *)
Lemma unit_interval (x : float) :
  (0 <=? x)%float = true -> (x <? 1)%float = true ->
  (exists s, Prim2SF x = S754_zero s)
  \/ (exists m e, Prim2SF x = S754_finite false m e /\ e <= -53 /\ Zpos m < 2 ^ 53).
Proof.
  rewrite FloatAxioms.leb_spec, FloatAxioms.ltb_spec, Prim2SF_zero, Prim2SF_one.
  pose proof (Prim2SF_valid x) as V.
  destruct (Prim2SF x) as [s|s| |s m e]; intros H0 H1; try discriminate.
  - left. eauto.
  - destruct s; discriminate.
  - right. destruct s; [discriminate|]. exists m, e. split; [reflexivity|].
    cbn [valid_binary] in V. unfold bounded, canonical_mantissa in V.
    apply andb_prop in V. destruct V as [V _]. apply Z.eqb_eq in V.
    rewrite fexp_eq in V.
    pose proof (digits2_pos_bounds m) as [L U].
    apply SFltb_finite in H1.
    assert (D : Zpos (digits2_pos m) <= 53) by lia.
    assert (Hm : Zpos m < 2 ^ 53).
    { eapply Z.lt_le_trans; [exact U|]. apply Z.pow_le_mono_r; lia. }
    split; [|exact Hm].
    destruct H1 as [H1|[-> H1]]; [lia|exfalso].
    assert (Zpos (digits2_pos m) = 53) by lia.
    replace (Zpos (digits2_pos m) - 1) with 52 in L by lia.
    change (2 ^ 52) with 4503599627370496 in L. lia.
Qed.

(** The half unit added by rounding a product [m * mn] of a mantissa [m]
    of a number below one and a normal mantissa [mn] is less than the
    distance of the product from [mn] itself. *)
Lemma rounding_gap (m mn : positive) (e en : Z) :
  Zpos m < 2 ^ 53 -> e <= -53 ->
  2 ^ 52 <= Zpos mn < 2 ^ 53 -> -52 <= en <= 0 ->
  let k1 := Z.max 0 (fexp prec emax (Zdigits2 (Zpos (m * mn)) + (e + en)) - (e + en)) in
  2 ^ k1 < 2 * Zpos mn * (2 ^ (- e) - Zpos m).
Proof.
  intros Hm He Hmn Hen k1. subst k1. cbn [Zdigits2]. rewrite fexp_eq.
  set (dM := Zpos (digits2_pos (m * mn))).
  change (2 ^ 53) with 9007199254740992 in *.
  change (2 ^ 52) with 4503599627370496 in *.
  assert (HM : Zpos (m * mn) < 2 ^ 106).
  { rewrite Pos2Z.inj_mul. change (2 ^ 106) with (9007199254740992 * 9007199254740992). nia. }
  pose proof (digits2_pos_le _ _ HM) as HdM. fold dM in HdM.
  destruct (Z_le_gt_dec e (-54)) as [C|C].
  - (* the number is below one half *)
    assert (T : 2 ^ 53 <= 2 ^ (- e - 1)) by (apply Z.pow_le_mono_r; lia).
    assert (T2 : 2 ^ (- e) = 2 * 2 ^ (- e - 1)).
    { replace (- e) with (Z.succ (- e - 1)) at 1 by lia. apply Z.pow_succ_r. lia. }
    assert (T3 : 2 ^ (52 - e) = 9007199254740992 * 2 ^ (- e - 1)).
    { replace (52 - e) with (53 + (- e - 1)) by lia. rewrite Z.pow_add_r by lia. reflexivity. }
    change (2 ^ 53) with 9007199254740992 in T.
    assert (K : 2 ^ Z.max 0 (Z.max (dM + (e + en) - 53) (-1074) - (e + en)) < 2 ^ (52 - e))
      by (apply Z.pow_lt_mono_r; lia).
    rewrite T2. rewrite T3 in K.
    set (P := 2 ^ (- e - 1)) in *. nia.
  - (* the number is at least one half *)
    assert (e = -53) by lia. subst e.
    change (2 ^ (- -53)) with 9007199254740992.
    replace (Z.max 0 (Z.max (dM + (-53 + en) - 53) (-1074) - (-53 + en)))
      with (Z.max 0 (dM - 53)) by lia.
    destruct (Z_le_gt_dec dM 105) as [D|D].
    + assert (K : 2 ^ Z.max 0 (dM - 53) <= 2 ^ 52) by (apply Z.pow_le_mono_r; lia).
      change (2 ^ 52) with 4503599627370496 in K. nia.
    + assert (dM = 106) by lia.
      replace (Z.max 0 (dM - 53)) with 53 by lia.
      change (2 ^ 53) with 9007199254740992.
      pose proof (digits2_pos_bounds (m * mn)) as [L _]. fold dM in L.
      replace (dM - 1) with 105 in L by lia.
      rewrite Pos2Z.inj_mul in L.
      change (2 ^ 105) with (9007199254740992 * 4503599627370496) in L.
      assert (4503599627370496 < Zpos mn) by nia.
      nia.
Qed.

(** The rounded product of a number below one (mantissa [m], exponent [e])
    and a positive integer [N] below [2 ^ 32] (mantissa [mn], exponent [en]):
    it is below [N], its exponent is at most [-21], and it is within two
    units in the last place of the exact product. *)
Lemma mul_round_bounds (m mn : positive) (e en N : Z) :
  Zpos m < 2 ^ 53 -> e <= -53 ->
  2 ^ 52 <= Zpos mn < 2 ^ 53 -> -52 <= en <= -21 ->
  Zpos mn = N * 2 ^ (- en) -> 0 < N < 2 ^ 32 ->
  let E := e + en in
  exists m3 e3,
    SFmul prec emax (S754_finite false m e) (S754_finite false mn en)
    = of_mantissa false m3 e3
    /\ 0 <= m3 /\ E <= e3 <= -21
    /\ m3 * 2 ^ (e3 - E) < N * 2 ^ (- E)
    /\ m3 * 2 ^ (e3 - E) - 2 ^ (e3 - E + 1) <= Zpos m * Zpos mn
       <= m3 * 2 ^ (e3 - E) + 2 ^ (e3 - E + 1).
Proof.
  intros Hm He Hmn Hen HN HN32 E. cbn [SFmul xorb].
  pose proof (rounding_gap m mn e en Hm He Hmn ltac:(lia)) as G.
  destruct (binary_round_aux_inv false (Zpos (m * mn)) (e + en) loc_Exact
              (Zpos (m * mn)) 1 ltac:(lia) (shr_inv_exact (Zpos (m * mn)) ltac:(lia)))
    as (m2 & m3 & H2 & U2 & L2 & H3 & [L3 U3] & ER).
  cbn zeta in G. fold E in G, U2, L2, L3, U3, ER |- *.
  set (k1 := Z.max 0 _) in G, U2, L2, L3, U3, ER.
  set (k2 := Z.max 0 _) in L3, U3, ER.
  rewrite ER. clear ER. rewrite !Z.mul_1_r in U2, L2.
  assert (P1 : 0 < 2 ^ k1) by (apply Z.pow_pos_nonneg; lia).
  assert (P2 : 0 < 2 ^ k2) by (apply Z.pow_pos_nonneg; lia).
  assert (Pe : 0 < 2 ^ (- e)) by (apply Z.pow_pos_nonneg; lia).
  assert (Pn : 0 < 2 ^ (- en)) by (apply Z.pow_pos_nonneg; lia).
  rewrite Pos2Z.inj_mul in U2, L2.
  assert (SE : 2 ^ (- E) = 2 ^ (- e) * 2 ^ (- en)).
  { unfold E. rewrite <- Z.pow_add_r by lia. f_equal. lia. }
  assert (B0 : m2 * 2 ^ k1 < Zpos mn * 2 ^ (- e)) by nia.
  assert (B : m2 * 2 ^ k1 < N * 2 ^ (- E)).
  { rewrite SE. rewrite HN in B0.
    replace (N * (2 ^ (- e) * 2 ^ (- en))) with (N * 2 ^ (- en) * 2 ^ (- e)) by ring.
    exact B0. }
  (* the exponent after the first shift *)
  assert (HM : Zpos (m * mn) < 2 ^ 106).
  { rewrite Pos2Z.inj_mul. change (2 ^ 106) with (2 ^ 53 * 2 ^ 53).
    apply Z.mul_lt_mono_nonneg; lia. }
  pose proof (digits2_pos_le _ _ HM) as HdM.
  assert (K1 : E + k1 <= -21).
  { subst k1. cbn [Zdigits2]. rewrite fexp_eq. unfold E. lia. }
  (* the exponent after the second shift *)
  assert (K2 : E + k1 + k2 <= -21).
  { subst k2. rewrite fexp_eq. destruct m2 as [|p2|p2]; cbn [Zdigits2]; [lia| |lia].
    assert (Zpos p2 < 2 ^ (32 - (E + k1))).
    { assert (S : 2 ^ (32 - E) = 2 ^ (32 - (E + k1)) * 2 ^ k1).
      { rewrite <- Z.pow_add_r by lia. f_equal. lia. }
      assert (S' : 2 ^ (32 - E) = 2 ^ 32 * 2 ^ (- E)).
      { rewrite <- Z.pow_add_r by lia. f_equal. }
      assert (0 < 2 ^ (- E)) by (apply Z.pow_pos_nonneg; lia).
      assert (Zpos p2 * 2 ^ k1 < 2 ^ (32 - E)).
      { rewrite S'. eapply Z.lt_trans; [exact B|].
        apply Z.mul_lt_mono_pos_r; lia. }
      apply (Z.mul_lt_mono_pos_r (2 ^ k1)); [exact P1|]. rewrite <- S. assumption. }
    pose proof (digits2_pos_le p2 _ H). lia. }
  exists m3, (E + k1 + k2).
  replace (E + k1 + k2 - E) with (k2 + k1) by lia.
  replace (k2 + k1 + 1) with (1 + (k2 + k1)) by lia.
  rewrite !Z.pow_add_r, Z.pow_1_r by lia.
  split.
  { destruct m3 as [|p|p]; cbn [of_mantissa]; [reflexivity| |lia].
    destruct (Z.leb_spec (E + k1 + k2) (emax - prec)) as [|G']; [reflexivity|].
    unfold emax, prec in G'. lia. }
  split; [assumption|]. split; [lia|].
  assert (A1 : m3 * 2 ^ k2 * 2 ^ k1 <= m2 * 2 ^ k1).
  { apply Z.mul_le_mono_nonneg_r; lia. }
  assert (A2 : (m2 + 1) * 2 ^ k1 <= (m3 + 1) * 2 ^ k2 * 2 ^ k1).
  { apply Z.mul_le_mono_nonneg_r; lia. }
  assert (A3 : 1 * 2 ^ k1 <= 2 ^ k2 * 2 ^ k1).
  { apply Z.mul_le_mono_nonneg_r; lia. }
  replace (m3 * (2 ^ k2 * 2 ^ k1)) with (m3 * 2 ^ k2 * 2 ^ k1) by ring.
  replace ((m3 + 1) * 2 ^ k2 * 2 ^ k1) with (m3 * 2 ^ k2 * 2 ^ k1 + 2 ^ k2 * 2 ^ k1) in A2 by ring.
  replace (2 * m2 * 2 ^ k1) with (2 * (m2 * 2 ^ k1)) in U2, L2 by ring.
  replace ((m2 + 1) * 2 ^ k1) with (m2 * 2 ^ k1 + 2 ^ k1) in A2 by ring.
  split; [lia|]. split; lia.
Qed.

Lemma Prim2SF_of_int (n : Z) :
  0 <= n < 2 ^ 32 ->
  Prim2SF (JS.of_int n) = binary_normalize prec emax n 0 false.
Proof.
  intros H. unfold JS.of_int. rewrite of_uint63_spec, Uint63.of_Z_spec.
  rewrite Z.mod_small; [reflexivity|].
  change (2 ^ 32) with 4294967296 in H.
  change wB with 9223372036854775808. lia.
Qed.

Lemma Prim2SF_length_of {A : Type} (array : list A) :
  Z.of_nat (List.length array) < 2 ^ 32 ->
  Prim2SF (JS.length_of array)
  = binary_normalize prec emax (Z.of_nat (List.length array)) 0 false.
Proof. intros H. apply Prim2SF_of_int. lia. Qed.


(** *** Quotients of whole numbers *)

(** The location of a remainder [r] of a division by [D] says where the
    exact quotient [q + r / D] lies between [q] and [q + 1]. *)
Lemma new_location_inv (q D r : Z) :
  0 <= q -> 0 <= r < D ->
  shr_inv (q * D + r) D 0 (shr_record_of_loc q (new_location D r)).
Proof.
  intros Hq Hr. unfold new_location, new_location_even, new_location_odd, shr_inv.
  rewrite Z.pow_0_r, Z.mul_1_l.
  destruct (Z.even D); destruct (Z.eqb_spec r 0) as [->|Hr0];
    cbn [shr_record_of_loc shr_m shr_r shr_s];
    try (repeat split; try lia; intros; lia).
  - destruct (Z.compare_spec (2 * r) D);
      cbn [shr_record_of_loc shr_m shr_r shr_s]; repeat split; try lia; discriminate.
  - destruct (Z.compare_spec (2 * r + 1) D);
      cbn [shr_record_of_loc shr_m shr_r shr_s]; repeat split; try lia; discriminate.
Qed.

(** The division of two 53-bit mantissas: the dividend is shifted by 53
    bits. *)
Lemma SFdiv_core_normal (mx my : positive) (ex ey : Z) :
  Zpos (digits2_pos mx) = 53 -> Zpos (digits2_pos my) = 53 ->
  -1021 <= ex - ey ->
  SFdiv_core_binary prec emax (Zpos mx) ex (Zpos my) ey
  = ((Zpos mx * 2 ^ 53) / Zpos my, ex - ey - 53,
     new_location (Zpos my) ((Zpos mx * 2 ^ 53) mod Zpos my)).
Proof.
  intros Dx Dy He. unfold SFdiv_core_binary. cbn [Zdigits2]. rewrite Dx, Dy, fexp_eq.
  replace (Z.min (Z.max (53 + ex - (53 + ey) - 53) (-1074)) (ex - ey))
    with (ex - ey - 53) by lia.
  replace (ex - ey - (ex - ey - 53)) with 53 by lia.
  rewrite Z.shiftl_mul_pow2 by lia.
  unfold Z.div, Z.modulo.
  destruct (Z.div_eucl (Zpos mx * 2 ^ 53) (Zpos my)) as [q r]. reflexivity.
Qed.

(** The quotient of two numbers with 53-bit mantissas: a 53-bit mantissa
    within half a unit of the exact quotient. *)
Lemma div_round (mx my : positive) (ex ey : Z) :
  Zpos (digits2_pos mx) = 53 -> Zpos (digits2_pos my) = 53 ->
  -100 <= ex - ey <= 100 ->
  let e' := ex - ey - 53 in
  exists m3 e3,
    SFdiv prec emax (S754_finite false mx ex) (S754_finite false my ey)
    = S754_finite false m3 e3
    /\ 2 ^ 52 <= Zpos m3 < 2 ^ 53 /\ e' <= e3 <= e' + 2
    /\ 2 * Zpos m3 * (2 ^ (e3 - e') * Zpos my)
       <= 2 * (Zpos mx * 2 ^ 53) + 2 ^ (e3 - e') * Zpos my
    /\ 2 * (Zpos mx * 2 ^ 53)
       <= 2 * Zpos m3 * (2 ^ (e3 - e') * Zpos my) + 2 ^ (e3 - e') * Zpos my.
Proof.
  intros Dx Dy He e'. cbn [SFdiv xorb].
  rewrite (SFdiv_core_normal mx my ex ey Dx Dy ltac:(lia)). fold e'.
  pose proof (digits2_pos_bounds mx) as Bx. rewrite Dx in Bx.
  pose proof (digits2_pos_bounds my) as By. rewrite Dy in By.
  change (53 - 1) with 52 in Bx, By.
  change (2 ^ 52) with 4503599627370496 in *.
  change (2 ^ 53) with 9007199254740992 in *.
  set (T := Zpos mx * 9007199254740992). set (D := Zpos my).
  pose proof (Z.div_mod T D ltac:(subst D; lia)) as DM.
  pose proof (Z.mod_pos_bound T D ltac:(subst D; lia)) as RB.
  set (q := T / D) in *. set (r := T mod D) in *.
  assert (Hq : 4503599627370496 <= q < 18014398509481984).
  { subst q. split.
    - apply Z.div_le_lower_bound; subst T D; lia.
    - apply Z.div_lt_upper_bound; subst T D; lia. }
  pose proof (new_location_inv q D r ltac:(lia) RB) as I0.
  replace (q * D + r) with T in I0 by lia.
  destruct (binary_round_aux_inv false q e' (new_location D r) T D ltac:(subst D; lia) I0)
    as (m2 & m3 & H2 & U2 & L2 & H3 & [L3 U3] & ER).
  rewrite ER. clear ER I0.
  (* the first shift *)
  destruct q as [|pq|pq]; try lia. cbn [Zdigits2] in *.
  set (dq := Zpos (digits2_pos pq)) in *.
  assert (Hdq : 53 <= dq <= 54).
  { split.
    - apply (digits2_pos_ge pq 52); [change (2 ^ 52) with 4503599627370496|]; lia.
    - apply digits2_pos_le. change (2 ^ 54) with 18014398509481984. lia. }
  pose proof (digits2_pos_bounds pq) as Bq. fold dq in Bq.
  cbv zeta in U2, L2, L3, U3 |- *.
  repeat rewrite fexp_eq in U2. repeat rewrite fexp_eq in L2.
  repeat rewrite fexp_eq in L3. repeat rewrite fexp_eq in U3. repeat rewrite fexp_eq.
  replace (Z.max 0 (Z.max (dq + e' - 53) (-1074) - e')) with (dq - 53) in * by (unfold e'; lia).
  set (k1 := dq - 53) in *.
  assert (Pk1 : 2 ^ k1 = 1 /\ dq = 53 \/ 2 ^ k1 = 2 /\ dq = 54).
  { assert (C : dq = 53 \/ dq = 54) by lia. subst k1.
    destruct C as [C|C]; rewrite C; [left|right]; split; reflexivity || assumption. }
  assert (M2 : 4503599627370496 <= m2 <= 9007199254740992).
  { assert (QD : 2 ^ (dq - 1) * D <= Zpos pq * D <= (2 ^ dq - 1) * D).
    { split; apply Z.mul_le_mono_nonneg_r; subst D; lia. }
    replace (2 * m2 * (2 ^ k1 * D)) with (2 * 2 ^ k1 * (m2 * D)) in U2, L2 by ring.
    split.
    - destruct (Z_le_gt_dec 4503599627370496 m2) as [|G]; [assumption|exfalso].
      assert (m2 * D <= 4503599627370495 * D)
        by (apply Z.mul_le_mono_nonneg_r; subst D; lia).
      destruct Pk1 as [[P ->]|[P ->]]; rewrite P in *.
      + change (2 ^ (53 - 1)) with 4503599627370496 in QD. lia.
      + change (2 ^ (54 - 1)) with 9007199254740992 in QD. lia.
    - destruct (Z_le_gt_dec m2 9007199254740992) as [|G]; [assumption|exfalso].
      assert (9007199254740993 * D <= m2 * D)
        by (apply Z.mul_le_mono_nonneg_r; subst D; lia).
      destruct Pk1 as [[P ->]|[P ->]]; rewrite P in *.
      + change (2 ^ 53) with 9007199254740992 in QD. lia.
      + change (2 ^ 54) with 18014398509481984 in QD. lia. }
  (* the second shift *)
  destruct m2 as [|p2|p2]; try lia. cbn [Zdigits2] in *.
  destruct (Z.eq_dec (Zpos p2) 9007199254740992) as [E2|E2].
  - assert (D2 : Zpos (digits2_pos p2) = 54).
    { apply digits2_pos_eq; [|lia]. rewrite E2. split; [reflexivity|reflexivity]. }
    rewrite D2 in *.
    replace (Z.max 0 (Z.max (54 + (e' + k1) - 53) (-1074) - (e' + k1))) with 1 in *
      by (unfold e', k1; lia).
    change (2 ^ 1) with 2 in *.
    assert (m3 = 4503599627370496) by lia. subst m3.
    exists 4503599627370496%positive, (e' + k1 + 1).
    destruct (Z.leb_spec (e' + k1 + 1) (emax - prec)) as [_|G];
      [|unfold emax, prec, e', k1 in G; lia].
    split; [reflexivity|]. split; [lia|]. split; [unfold k1; lia|].
    replace (e' + k1 + 1 - e') with (k1 + 1) by lia.
    rewrite Z.pow_add_r, Z.pow_1_r by lia.
    assert (P1 : 0 < 2 ^ k1) by (apply Z.pow_pos_nonneg; lia).
    rewrite E2 in *. split; nia.
  - assert (D2 : Zpos (digits2_pos p2) = 53).
    { apply digits2_pos_eq; [|lia]. change (53 - 1) with 52.
      change (2 ^ 52) with 4503599627370496. change (2 ^ 53) with 9007199254740992. lia. }
    rewrite D2 in *.
    replace (Z.max 0 (Z.max (53 + (e' + k1) - 53) (-1074) - (e' + k1))) with 0 in *
      by (unfold e', k1; lia).
    rewrite Z.pow_0_r, !Z.mul_1_r in *.
    assert (m3 = Zpos p2) by lia. subst m3.
    exists p2, (e' + k1 + 0).
    destruct (Z.leb_spec (e' + k1 + 0) (emax - prec)) as [_|G];
      [|unfold emax, prec, e', k1 in G; lia].
    split; [reflexivity|]. split; [lia|]. split; [unfold k1; lia|].
    replace (e' + k1 + 0 - e') with k1 by lia.
    split; assumption.
Qed.

Lemma SFltb_finite_iff (m1 m2 : positive) (e1 e2 : Z) :
  SFltb (S754_finite false m1 e1) (S754_finite false m2 e2) = true
  <-> e1 < e2 \/ (e1 = e2 /\ Zpos m1 < Zpos m2).
Proof.
  unfold SFltb, SFcompare.
  change (Pos.compare_cont Eq m1 m2) with (Pos.compare m1 m2).
  destruct (Z.compare_spec e1 e2); [destruct (Pos.compare_spec m1 m2)| |];
    split; intros; try discriminate; try reflexivity; lia.
Qed.

(** A 53-bit mantissa [m] at exponent [- g] within half a unit of [W / H],
    against a threshold [mc] at exponent [- gc] within half a unit of
    [a / 10]: the two compare as [W / H] and [a / 10] do, as long as [H] is
    below [2 ^ 32]. *)
Lemma threshold_exact (m g mc gc a W H : Z) :
  2 ^ 52 <= m < 2 ^ 53 -> 0 <= g ->
  2 * m * H <= 2 * W * 2 ^ g + H -> 2 * W * 2 ^ g <= 2 * m * H + H ->
  2 ^ 52 < mc < 2 ^ 53 -> 36 <= gc -> -5 < 10 * mc - a * 2 ^ gc < 5 ->
  0 < W -> 0 < H < 2 ^ 32 -> 0 < a ->
  (gc < g \/ (g = gc /\ m < mc)) <-> 10 * W < a * H.
Proof.
  intros Hm Hg BU BL Hmc Hgc Ha HW HH Ha0.
  change (2 ^ 52) with 4503599627370496 in *.
  change (2 ^ 53) with 9007199254740992 in *.
  change (2 ^ 32) with 4294967296 in *.
  assert (P36 : 2 ^ 36 <= 2 ^ gc) by (apply Z.pow_le_mono_r; lia).
  change (2 ^ 36) with 68719476736 in P36.
  assert (Pg : 0 < 2 ^ g) by (apply Z.pow_pos_nonneg; lia).
  assert (MH : 4503599627370496 * H <= m * H <= 9007199254740991 * H).
  { split; apply Z.mul_le_mono_nonneg_r; lia. }
  assert (AH : (10 * mc - 4) * H <= a * 2 ^ gc * H <= (10 * mc + 4) * H).
  { split; apply Z.mul_le_mono_nonneg_r; lia. }
  assert (MC : 4503599627370497 * H <= mc * H <= 9007199254740991 * H).
  { split; apply Z.mul_le_mono_nonneg_r; lia. }
  destruct (Z.lt_trichotomy g gc) as [C|[C|C]].
  - (* the quotient is in a higher binade than the threshold *)
    assert (S : 2 ^ gc = 2 ^ (gc - g - 1) * 2 * 2 ^ g).
    { replace gc with (gc - g - 1 + 1 + g) at 1 by lia.
      rewrite !Z.pow_add_r, Z.pow_1_r by lia. reflexivity. }
    assert (F1 : 1 <= 2 ^ (gc - g - 1)) by (apply (Z.pow_le_mono_r 2 0); lia).
    split; [lia|]. intros L. exfalso.
    assert (A3 : 2 * W * 2 ^ g * 1 <= 2 * W * 2 ^ g * 2 ^ (gc - g - 1)).
    { apply Z.mul_le_mono_nonneg_l; [|exact F1]. apply Z.mul_nonneg_nonneg; lia. }
    assert (A5 : (10 * W + 1) * 2 ^ gc <= a * H * 2 ^ gc).
    { apply Z.mul_le_mono_nonneg_r; lia. }
    assert (E : W * 2 ^ gc = 2 * W * 2 ^ g * 2 ^ (gc - g - 1)) by (rewrite S; ring).
    replace (a * H * 2 ^ gc) with (a * 2 ^ gc * H) in A5 by ring.
    lia.
  - (* the same binade *)
    subst gc. split.
    + intros [L|[_ L]]; [lia|].
      assert (A1 : m * H <= (mc - 1) * H) by (apply Z.mul_le_mono_nonneg_r; lia).
      assert (A2 : 10 * (W * 2 ^ g) < a * H * 2 ^ g).
      { replace (a * H * 2 ^ g) with (a * 2 ^ g * H) by ring. lia. }
      apply (Z.mul_lt_mono_pos_r (2 ^ g)); [exact Pg|].
      replace (10 * W * 2 ^ g) with (10 * (W * 2 ^ g)) by ring. exact A2.
    + intros L. right. split; [reflexivity|].
      destruct (Z_lt_le_dec m mc) as [|G]; [assumption|exfalso].
      assert (A1 : mc * H <= m * H) by (apply Z.mul_le_mono_nonneg_r; lia).
      assert (A3 : 1 * 2 ^ g <= (a * H - 10 * W) * 2 ^ g).
      { apply Z.mul_le_mono_nonneg_r; lia. }
      replace ((a * H - 10 * W) * 2 ^ g) with (a * 2 ^ g * H - 10 * (W * 2 ^ g)) in A3 by ring.
      lia.
  - (* the quotient is in a lower binade *)
    assert (S : 2 ^ g = 2 ^ (g - gc - 1) * 2 * 2 ^ gc).
    { replace g with (g - gc - 1 + 1 + gc) at 1 by lia.
      rewrite !Z.pow_add_r, Z.pow_1_r by lia. reflexivity. }
    assert (F1 : 1 <= 2 ^ (g - gc - 1)) by (apply (Z.pow_le_mono_r 2 0); lia).
    split; [intros _|intros _; left; lia].
    assert (A3 : 2 * W * 2 ^ gc * 1 <= 2 * W * 2 ^ gc * 2 ^ (g - gc - 1)).
    { apply Z.mul_le_mono_nonneg_l; [|exact F1]. apply Z.mul_nonneg_nonneg; lia. }
    assert (E : W * 2 ^ g = 2 * W * 2 ^ gc * 2 ^ (g - gc - 1)) by (rewrite S; ring).
    assert (A2 : 10 * (W * 2 ^ gc) < a * H * 2 ^ gc).
    { replace (a * H * 2 ^ gc) with (a * 2 ^ gc * H) by ring. lia. }
    apply (Z.mul_lt_mono_pos_r (2 ^ gc)); [lia|].
    replace (10 * W * 2 ^ gc) with (10 * (W * 2 ^ gc)) by ring. exact A2.
Qed.

(** The quotient of two positive integers below [2 ^ 32], as the division
    of numbers computes it: a 53-bit mantissa within half a unit of the exact
    quotient. *)
Lemma div_int_round (W H : positive) :
  Zpos W < 2 ^ 32 -> Zpos H < 2 ^ 32 ->
  exists m3 g,
    Prim2SF (JS.of_int (Zpos W) / JS.of_int (Zpos H))%float = S754_finite false m3 (- g)
    /\ 2 ^ 52 <= Zpos m3 < 2 ^ 53 /\ 0 <= g
    /\ 2 * Zpos m3 * Zpos H <= 2 * Zpos W * 2 ^ g + Zpos H
    /\ 2 * Zpos W * 2 ^ g <= 2 * Zpos m3 * Zpos H + Zpos H.
Proof.
  intros HW HH.
  assert (HW53 : Zpos W < 2 ^ 53).
  { eapply Z.lt_le_trans; [apply HW|]. apply Z.pow_le_mono_r; lia. }
  assert (HH53 : Zpos H < 2 ^ 53).
  { eapply Z.lt_le_trans; [apply HH|]. apply Z.pow_le_mono_r; lia. }
  rewrite FloatAxioms.div_spec, !Prim2SF_of_int by lia. unfold SF64div.
  destruct (binary_normalize_small W HW53) as (mW & -> & EW & DW).
  destruct (binary_normalize_small H HH53) as (mH & -> & EH & DH).
  set (dW := Zpos (digits2_pos W)) in *. set (dH := Zpos (digits2_pos H)) in *.
  assert (BW : 0 < dW <= 32) by (split; [subst dW; lia|apply digits2_pos_le; lia]).
  assert (BH : 0 < dH <= 32) by (split; [subst dH; lia|apply digits2_pos_le; lia]).
  destruct (div_round mW mH (dW - 53) (dH - 53) DW DH ltac:(lia))
    as (m3 & e3 & -> & Hm3 & He3 & U & L).
  set (e' := dW - 53 - (dH - 53) - 53) in *.
  exists m3, (- e3). rewrite Z.opp_involutive.
  split; [reflexivity|]. split; [assumption|]. split; [unfold e' in He3; lia|].
  set (k := e3 - e') in *.
  assert (Pk : 0 < 2 ^ k) by (apply Z.pow_pos_nonneg; lia).
  assert (PH : 0 < 2 ^ (53 - dH)) by (apply Z.pow_pos_nonneg; lia).
  assert (S : Zpos mW * 2 ^ 53 = Zpos W * 2 ^ (- e3) * (2 ^ k * 2 ^ (53 - dH))).
  { rewrite EW, <- !Z.mul_assoc, <- !Z.pow_add_r by (unfold k, e' in *; lia).
    f_equal. f_equal. unfold k, e'. lia. }
  rewrite S, EH in U, L.
  set (A := 2 ^ k * 2 ^ (53 - dH)) in *.
  assert (PA : 0 < A) by (apply Z.mul_pos_pos; assumption).
  replace (2 ^ k * (Zpos H * 2 ^ (53 - dH))) with (Zpos H * A) in U, L by (unfold A; ring).
  split.
  - apply (Z.mul_le_mono_pos_r _ _ A PA).
    replace (2 * Zpos m3 * Zpos H * A) with (2 * Zpos m3 * (Zpos H * A)) by ring.
    replace ((2 * Zpos W * 2 ^ (- e3) + Zpos H) * A)
      with (2 * (Zpos W * 2 ^ (- e3) * A) + Zpos H * A) by ring.
    exact U.
  - apply (Z.mul_le_mono_pos_r _ _ A PA).
    replace ((2 * Zpos m3 * Zpos H + Zpos H) * A)
      with (2 * Zpos m3 * (Zpos H * A) + Zpos H * A) by ring.
    replace (2 * Zpos W * 2 ^ (- e3) * A) with (2 * (Zpos W * 2 ^ (- e3) * A)) by ring.
    exact L.
Qed.

(** The three thresholds, as numbers. *)
Lemma Prim2SF_thresholds :
  Prim2SF 0.7 = S754_finite false 6305039478318694 (-53)
  /\ Prim2SF 1.3 = S754_finite false 5854679515581645 (-52)
  /\ Prim2SF 1.8 = S754_finite false 8106479329266893 (-52).
Proof. repeat split. Qed.

(** For sides that are whole numbers of pixels below [2 ^ 32], the tests of
    the filter agree with the exact comparisons of [W / H] with 0.7, 1.3 and
    1.8. *)
Lemma ratio_tests_exact (W H : Z) :
  0 < W < 2 ^ 32 -> 0 < H < 2 ^ 32 ->
  let ratio := (JS.of_int W / JS.of_int H)%float in
  ((ratio <? 0.7)%float = true <-> 10 * W < 7 * H)
  /\ ((ratio <? 1.3)%float = true <-> 10 * W < 13 * H)
  /\ ((ratio <? 1.8)%float = true <-> 10 * W < 18 * H).
Proof.
  intros HW HH ratio. subst ratio.
  destruct W as [|W|W]; try lia. destruct H as [|H|H]; try lia.
  destruct (div_int_round W H ltac:(lia) ltac:(lia)) as (m3 & g & E & Hm & Hg & U & L).
  destruct Prim2SF_thresholds as (T1 & T2 & T3).
  rewrite !FloatAxioms.ltb_spec, E, T1, T2, T3, !SFltb_finite_iff.
  split; [|split].
  - rewrite <- (threshold_exact (Zpos m3) g 6305039478318694 53 7 (Zpos W) (Zpos H));
      try assumption; lia.
  - rewrite <- (threshold_exact (Zpos m3) g 5854679515581645 52 13 (Zpos W) (Zpos H));
      try assumption; lia.
  - rewrite <- (threshold_exact (Zpos m3) g 8106479329266893 52 18 (Zpos W) (Zpos H));
      try assumption; lia.
Qed.

(** *** Flooring a scaled number *)

Lemma valid_zero (s : bool) : valid_binary (S754_zero s) = true.
Proof. reflexivity. Qed.

Lemma floor_zero (s : bool) :
  JS.array_index (Prim2SF (JS.Math_floor (SF2Prim (S754_zero s)))) = Some 0.
Proof. destruct s; reflexivity. Qed.

(** The index denoted by the floor of a non-negative number with a negative
    exponent. *)
Lemma floor_index_neg (m3 e3 : Z) :
  valid_binary (of_mantissa false m3 e3) = true ->
  0 <= m3 -> e3 < 0 -> m3 / 2 ^ (- e3) < 2 ^ 53 ->
  JS.array_index (Prim2SF (JS.Math_floor (SF2Prim (of_mantissa false m3 e3))))
  = Some (m3 / 2 ^ (- e3)).
Proof.
  intros V H0 He Hq. destruct m3 as [|p|p]; [| |lia].
  { cbn [of_mantissa]. rewrite Z.div_0_l by (apply Z.pow_nonzero; lia). apply floor_zero. }
  cbn [of_mantissa] in *. unfold JS.Math_floor.
  rewrite (Prim2SF_SF2Prim _ V). cbn [JS.SFfloor].
  destruct (Z.leb_spec 0 e3) as [|_]; [lia|]. cbn [cond_Zopp].
  assert (P2 : 0 < 2 ^ (- e3)) by (apply Z.pow_pos_nonneg; lia).
  pose proof (Z.div_pos (Zpos p) (2 ^ (- e3)) ltac:(lia) P2) as Q0.
  destruct (Zpos p / 2 ^ (- e3)) as [|q|q] eqn:Eq; [| |lia].
  - cbn [binary_normalize]. rewrite (Prim2SF_SF2Prim _ (valid_zero false)). reflexivity.
  - destruct (binary_normalize_small q Hq) as (m' & -> & Hm' & Dm').
    set (dq := Zpos (digits2_pos q)) in *.
    assert (Hdq : 0 < dq <= 53).
    { split; [subst dq; lia|]. apply digits2_pos_le. exact Hq. }
    assert (V' : valid_binary (S754_finite false m' (dq - 53)) = true).
    { cbn [SpecFloat.valid_binary]. unfold bounded, canonical_mantissa.
      rewrite Dm', fexp_eq. apply andb_true_intro. split.
      - apply Z.eqb_eq. lia.
      - apply Z.leb_le. unfold emax, prec. lia. }
    rewrite (Prim2SF_SF2Prim _ V'). cbn [JS.array_index].
    destruct (Z.leb_spec 0 (dq - 53)) as [D|D].
    + replace (dq - 53) with 0 by lia. replace (53 - dq) with 0 in Hm' by lia.
      rewrite Z.pow_0_r in *. f_equal. lia.
    + replace (- (dq - 53)) with (53 - dq) by lia. rewrite Hm'.
      assert (0 < 2 ^ (53 - dq)) by (apply Z.pow_pos_nonneg; lia).
      rewrite Z.mod_mul by lia. cbn [Z.eqb].
      rewrite Z.div_mul by lia. reflexivity.
Qed.

(** The floor of the rounded product, against the exact product: it is an
    index below [N], and the exact product lies between it and its successor
    up to [2 ^ -20]. *)
Lemma floor_bucket (m mn : positive) (e en N m3 e3 : Z) :
  e <= -53 -> en <= 0 -> Zpos mn = N * 2 ^ (- en) -> 0 < N ->
  let E := e + en in
  0 <= m3 -> E <= e3 <= -21 ->
  m3 * 2 ^ (e3 - E) < N * 2 ^ (- E) ->
  m3 * 2 ^ (e3 - E) - 2 ^ (e3 - E + 1) <= Zpos m * Zpos mn
    <= m3 * 2 ^ (e3 - E) + 2 ^ (e3 - E + 1) ->
  let q := m3 / 2 ^ (- e3) in
  0 <= q < N
  /\ (q * 2 ^ 20 - 1) * 2 ^ (- e) <= 2 ^ 20 * (Zpos m * N)
  /\ 2 ^ 20 * (Zpos m * N) < ((q + 1) * 2 ^ 20 + 1) * 2 ^ (- e).
Proof.
  intros He Hen HN HN0 E H3 He3 B [CL CU] q.
  assert (P3 : 0 < 2 ^ (- e3)) by (apply Z.pow_pos_nonneg; lia).
  assert (Pe : 0 < 2 ^ (- e)) by (apply Z.pow_pos_nonneg; lia).
  assert (Pn : 0 < 2 ^ (- en)) by (apply Z.pow_pos_nonneg; lia).
  assert (PK : 0 < 2 ^ (e3 - E)) by (apply Z.pow_pos_nonneg; lia).
  assert (SE : 2 ^ (- E) = 2 ^ (- e) * 2 ^ (- en)).
  { unfold E. rewrite <- Z.pow_add_r by lia. f_equal. lia. }
  assert (SK : 2 ^ (- E) = 2 ^ (- e3) * 2 ^ (e3 - E)).
  { rewrite <- Z.pow_add_r by lia. f_equal. lia. }
  assert (S21 : 2 ^ 21 <= 2 ^ (- e3)) by (apply Z.pow_le_mono_r; lia).
  rewrite Z.pow_add_r, Z.pow_1_r in CL, CU by lia.
  change (2 ^ 21) with 2097152 in S21. change (2 ^ 20) with 1048576.
  pose proof (Z.div_pos m3 (2 ^ (- e3)) H3 P3) as Q0. fold q in Q0.
  pose proof (Z.mul_div_le m3 (2 ^ (- e3)) P3) as Q1. fold q in Q1.
  pose proof (Z.mul_succ_div_gt m3 (2 ^ (- e3)) P3) as Q2. fold q in Q2.
  set (S := 2 ^ (- E)) in *. set (K := 2 ^ (e3 - E)) in *.
  set (P := 2 ^ (- e3)) in *. set (X := 2 ^ (- e)) in *. set (Y := 2 ^ (- en)) in *.
  assert (QS : q * S <= m3 * K) by (rewrite SK; nia).
  assert (QS' : m3 * K + K <= (q + 1) * S) by (rewrite SK; nia).
  assert (KS : 2097152 * K <= S) by (rewrite SK; nia).
  assert (MN : Zpos m * Zpos mn = Zpos m * N * Y) by (rewrite HN; ring).
  rewrite MN in CL, CU.
  split; [split; [assumption|nia]|].
  split.
  - assert ((q * 1048576 - 1) * S <= 1048576 * (Zpos m * N * Y)) by nia.
    rewrite SE in H. fold X Y in H. nia.
  - assert (1048576 * (Zpos m * N * Y) < ((q + 1) * 1048576 + 1) * S) by nia.
    rewrite SE in H. fold X Y in H. nia.
Qed.

(** The product of a number of the unit interval and a length, floored, is
    an index below the length; the exact product lies between the index and
    its successor, up to [2 ^ -20]. *)
Lemma scaled_index_bucket (x : float) (N : Z) (len : float) :
  (0 <=? x)%float = true -> (x <? 1)%float = true ->
  0 < N < 2 ^ 32 ->
  Prim2SF len = binary_normalize prec emax N 0 false ->
  exists q, 0 <= q < N
    /\ JS.array_index (Prim2SF (JS.Math_floor (x * len)%float)) = Some q
    /\ (inject_Z q - (1 # 1048576) <= JS.value x * inject_Z N)%Q
    /\ (JS.value x * inject_Z N < inject_Z q + 1 + (1 # 1048576))%Q.
Proof.
  intros H0 H1 HN Hlen.
  pose proof (Prim2SF_valid (x * len)%float) as V.
  rewrite <- (SF2Prim_Prim2SF (x * len)%float).
  rewrite FloatAxioms.mul_spec in V |- *. unfold SF64mul in *. rewrite Hlen in V |- *.
  destruct N as [|n|n]; try lia.
  assert (HN53 : Zpos n < 2 ^ 53).
  { eapply Z.lt_le_trans; [apply HN|]. apply Z.pow_le_mono_r; lia. }
  destruct (binary_normalize_small n HN53) as (mn & En & Hmn & Dmn).
  rewrite En in V |- *. set (d := Zpos (digits2_pos n)) in *.
  assert (Hd : 0 < d <= 32) by (split; [subst d; lia|apply digits2_pos_le; lia]).
  pose proof (digits2_pos_bounds mn) as Bmn. rewrite Dmn in Bmn.
  change (53 - 1) with 52 in Bmn.
  unfold JS.value.
  destruct (unit_interval x H0 H1) as [[s Ex]|(m & e & Ex & He & Hm)]; rewrite Ex in V |- *.
  - exists 0. split; [lia|]. split; [apply floor_zero|].
    cbn [JS.SF2Q]. split; unfold Qle, Qlt; cbn; lia.
  - replace (53 - d) with (- (d - 53)) in Hmn by lia.
    destruct (mul_round_bounds m mn e (d - 53) (Zpos n) Hm He Bmn ltac:(lia) Hmn HN)
      as (m3 & e3 & ER & H3 & He3 & B & C).
    rewrite ER in V |- *.
    destruct (floor_bucket m mn e (d - 53) (Zpos n) m3 e3 He ltac:(lia) Hmn ltac:(lia)
                H3 He3 B C) as (Hq & BL & BU).
    exists (m3 / 2 ^ (- e3)). split; [exact Hq|]. split.
    + apply floor_index_neg; try assumption; lia.
    + cbn [JS.SF2Q cond_Zopp]. destruct (Z.leb_spec 0 e) as [|_]; [lia|].
      assert (Pe : 0 < 2 ^ (- e)) by (apply Z.pow_pos_nonneg; lia).
      change (2 ^ 20) with 1048576 in BL, BU.
      set (q := m3 / 2 ^ (- e3)) in *.
      unfold Qle, Qlt, Qminus, Qplus, Qmult, Qopp, inject_Z. cbn [Qnum Qden].
      rewrite !Pos2Z.inj_mul, Z2Pos.id by assumption.
      split; lia.
Qed.

(** *** The order, once more *)

Lemma SFcompare_eq_lt_trans (x y z : spec_float) :
  SFcompare x y = Some Eq -> SFcompare y z = Some Lt -> SFcompare x z = Some Lt.
Proof.
  destruct x as [sx|sx| |sx mx ex], y as [sy|sy| |sy my ey], z as [sz|sz| |sz mz ez];
    simpl; try discriminate; try (destruct sx; discriminate);
    try (destruct sy; discriminate); try (destruct sz; discriminate);
    try (destruct sx, sy; discriminate); try (destruct sy, sz; discriminate);
    try (destruct sx, sy, sz; (discriminate || reflexivity)).
  change (Pos.compare_cont Eq mx my) with (Pos.compare mx my).
  change (Pos.compare_cont Eq my mz) with (Pos.compare my mz).
  change (Pos.compare_cont Eq mx mz) with (Pos.compare mx mz).
  destruct sx, sy, sz; try discriminate; try reflexivity; intros H1 H2; f_equal;
    injection H1 as H1; injection H2 as H2;
    destruct (Z.compare_spec ex ey), (Z.compare_spec ey ez); try discriminate;
    destruct (Z.compare_spec ex ez); try reflexivity; try lia;
    destruct (Pos.compare_spec mx my), (Pos.compare_spec my mz); try discriminate;
    destruct (Pos.compare_spec mx mz); try reflexivity; lia.
Qed.

Lemma leb_ltb_trans (x y z : float) :
  (x <=? y)%float = true -> (y <? z)%float = true -> (x <? z)%float = true.
Proof.
  rewrite FloatAxioms.leb_spec, !FloatAxioms.ltb_spec. unfold SFleb, SFltb. intros H1 H2.
  destruct (SFcompare (Prim2SF y) (Prim2SF z)) as [[]|] eqn:E2; try discriminate.
  destruct (SFcompare (Prim2SF x) (Prim2SF y)) as [[]|] eqn:E1; try discriminate.
  - rewrite (SFcompare_eq_lt_trans _ _ _ E1 E2). reflexivity.
  - rewrite (SFcompare_lt_trans _ _ _ E1 E2). reflexivity.
Qed.

(** Only numbers are ordered. *)
Lemma leb_not_nan (x y : float) :
  (x <=? y)%float = true -> is_nan x = false /\ is_nan y = false.
Proof.
  intros H. split.
  - destruct (is_nan x) eqn:E; [|reflexivity].
    apply is_nan_true in E. rewrite FloatAxioms.leb_spec, E in H. discriminate.
  - destruct (is_nan y) eqn:E; [|reflexivity].
    rewrite (leb_nan_r x y E) in H. discriminate.
Qed.

(** *** The middle of a part of the unit interval *)

Lemma Prim2SF_of_int_wide (n : Z) :
  0 <= n < 2 ^ 50 ->
  Prim2SF (JS.of_int n) = binary_normalize prec emax n 0 false.
Proof.
  intros H. unfold JS.of_int. rewrite of_uint63_spec, Uint63.of_Z_spec.
  rewrite Z.mod_small; [reflexivity|].
  change (2 ^ 50) with 1125899906842624 in H.
  change wB with 9223372036854775808. lia.
Qed.

(** [div_int_round], for whole numbers below [2 ^ 50]. *)
Lemma div_int_round_wide (W H : positive) :
  Zpos W < 2 ^ 50 -> Zpos H < 2 ^ 50 ->
  exists m3 g,
    Prim2SF (JS.of_int (Zpos W) / JS.of_int (Zpos H))%float = S754_finite false m3 (- g)
    /\ 2 ^ 52 <= Zpos m3 < 2 ^ 53 /\ 0 <= g
    /\ 2 * Zpos m3 * Zpos H <= 2 * Zpos W * 2 ^ g + Zpos H
    /\ 2 * Zpos W * 2 ^ g <= 2 * Zpos m3 * Zpos H + Zpos H.
Proof.
  intros HW HH.
  assert (HW53 : Zpos W < 2 ^ 53).
  { eapply Z.lt_le_trans; [apply HW|]. apply Z.pow_le_mono_r; lia. }
  assert (HH53 : Zpos H < 2 ^ 53).
  { eapply Z.lt_le_trans; [apply HH|]. apply Z.pow_le_mono_r; lia. }
  rewrite FloatAxioms.div_spec, !Prim2SF_of_int_wide by lia. unfold SF64div.
  destruct (binary_normalize_small W HW53) as (mW & -> & EW & DW).
  destruct (binary_normalize_small H HH53) as (mH & -> & EH & DH).
  set (dW := Zpos (digits2_pos W)) in *. set (dH := Zpos (digits2_pos H)) in *.
  assert (BW : 0 < dW <= 50) by (split; [subst dW; lia|apply digits2_pos_le; lia]).
  assert (BH : 0 < dH <= 50) by (split; [subst dH; lia|apply digits2_pos_le; lia]).
  destruct (div_round mW mH (dW - 53) (dH - 53) DW DH ltac:(lia))
    as (m3 & e3 & -> & Hm3 & He3 & U & L).
  set (e' := dW - 53 - (dH - 53) - 53) in *.
  exists m3, (- e3). rewrite Z.opp_involutive.
  split; [reflexivity|]. split; [assumption|]. split; [unfold e' in He3; lia|].
  set (k := e3 - e') in *.
  assert (Pk : 0 < 2 ^ k) by (apply Z.pow_pos_nonneg; lia).
  assert (PH : 0 < 2 ^ (53 - dH)) by (apply Z.pow_pos_nonneg; lia).
  assert (S : Zpos mW * 2 ^ 53 = Zpos W * 2 ^ (- e3) * (2 ^ k * 2 ^ (53 - dH))).
  { rewrite EW, <- !Z.mul_assoc, <- !Z.pow_add_r by (unfold k, e' in *; lia).
    f_equal. f_equal. unfold k, e'. lia. }
  rewrite S, EH in U, L.
  set (A := 2 ^ k * 2 ^ (53 - dH)) in *.
  assert (PA : 0 < A) by (apply Z.mul_pos_pos; assumption).
  replace (2 ^ k * (Zpos H * 2 ^ (53 - dH))) with (Zpos H * A) in U, L by (unfold A; ring).
  split.
  - apply (Z.mul_le_mono_pos_r _ _ A PA).
    replace (2 * Zpos m3 * Zpos H * A) with (2 * Zpos m3 * (Zpos H * A)) by ring.
    replace ((2 * Zpos W * 2 ^ (- e3) + Zpos H) * A)
      with (2 * (Zpos W * 2 ^ (- e3) * A) + Zpos H * A) by ring.
    exact U.
  - apply (Z.mul_le_mono_pos_r _ _ A PA).
    replace ((2 * Zpos m3 * Zpos H + Zpos H) * A)
      with (2 * Zpos m3 * (Zpos H * A) + Zpos H * A) by ring.
    replace (2 * Zpos W * 2 ^ (- e3) * A) with (2 * (Zpos W * 2 ^ (- e3) * A)) by ring.
    exact L.
Qed.

(** The number [(2 j + 1) / (2 N)], the middle of the [j]-th of [N] equal
    parts of the unit interval, as the division computes it: it lies in the
    unit interval and its product with [N], floored, is [j]. *)
Lemma midpoint_index (j N : Z) (len : float) :
  0 <= j < N -> N < 2 ^ 32 ->
  Prim2SF len = binary_normalize prec emax N 0 false ->
  let r := (JS.of_int (2 * j + 1) / JS.of_int (2 * N))%float in
  (0 <=? r)%float = true /\ (r <? 1)%float = true
  /\ JS.array_index (Prim2SF (JS.Math_floor (r * len)%float)) = Some j.
Proof.
  intros Hj HN Hlen r.
  change (2 ^ 32) with 4294967296 in HN.
  destruct (2 * j + 1) as [|W|W] eqn:EW; try lia.
  destruct (2 * N) as [|H|H] eqn:EH; try lia.
  destruct (div_int_round_wide W H) as (m3 & g & E & Hm & Hg & U & L).
  { change (2 ^ 50) with 1125899906842624. lia. }
  { change (2 ^ 50) with 1125899906842624. lia. }
  fold r in E.
  change (2 ^ 52) with 4503599627370496 in Hm.
  change (2 ^ 53) with 9007199254740992 in Hm.
  assert (G53 : 53 <= g).
  { destruct (Z_le_gt_dec 53 g) as [|C]; [assumption|exfalso].
    assert (P : 2 ^ g <= 2 ^ 52) by (apply Z.pow_le_mono_r; lia).
    change (2 ^ 52) with 4503599627370496 in P.
    assert (A1 : 4503599627370496 * Zpos H <= Zpos m3 * Zpos H)
      by (apply Z.mul_le_mono_nonneg_r; lia).
    assert (A2 : Zpos W * 2 ^ g <= Zpos W * 4503599627370496)
      by (apply Z.mul_le_mono_nonneg_l; lia).
    lia. }
  assert (R0 : (0 <=? r)%float = true).
  { rewrite FloatAxioms.leb_spec, E. reflexivity. }
  assert (R1 : (r <? 1)%float = true).
  { rewrite FloatAxioms.ltb_spec, E, Prim2SF_one. apply SFltb_finite_iff. lia. }
  split; [exact R0|]. split; [exact R1|].
  destruct (scaled_index_bucket r N len R0 R1 ltac:(change (2 ^ 32) with 4294967296; lia) Hlen)
    as (q & Hq & Eq & BL & BU).
  rewrite Eq. f_equal.
  unfold JS.value in BL, BU. rewrite E in BL, BU. cbn [JS.SF2Q cond_Zopp] in BL, BU.
  destruct (Z.leb_spec 0 (- g)) as [|_]; [lia|].
  rewrite Z.opp_involutive in BL, BU.
  assert (PG : 2 ^ 53 <= 2 ^ g) by (apply Z.pow_le_mono_r; lia).
  change (2 ^ 53) with 9007199254740992 in PG.
  unfold Qle, Qlt, Qminus, Qplus, Qmult, Qopp, inject_Z in BL, BU. cbn [Qnum Qden] in BL, BU.
  rewrite !Pos2Z.inj_mul, !Z2Pos.id in BL by lia.
  rewrite !Pos2Z.inj_mul, !Z2Pos.id in BU by lia.
  set (G := 2 ^ g) in *.
  assert (U' : 2 * (Zpos m3 * N) <= (2 * j + 1) * G + N).
  { rewrite EW. replace (Zpos H) with (2 * N) in U by lia.
    replace (2 * Zpos m3 * (2 * N)) with (2 * (2 * (Zpos m3 * N))) in U by ring.
    replace (2 * Zpos W * G) with (2 * (Zpos W * G)) in U by ring. lia. }
  assert (L' : (2 * j + 1) * G <= 2 * (Zpos m3 * N) + N).
  { rewrite EW. replace (Zpos H) with (2 * N) in L by lia.
    replace (2 * Zpos m3 * (2 * N)) with (2 * (2 * (Zpos m3 * N))) in L by ring.
    replace (2 * Zpos W * G) with (2 * (Zpos W * G)) in L by ring. lia. }
  clear U L E EW EH R0 R1 Eq.
  destruct (Z.lt_trichotomy q j) as [C|[C|C]]; [exfalso|assumption|exfalso].
  - assert ((q + 1) * G <= j * G) by (apply Z.mul_le_mono_nonneg_r; lia). lia.
  - assert ((j + 1) * G <= q * G) by (apply Z.mul_le_mono_nonneg_r; lia). lia.
Qed.

End B64.

(** ** The aspect-ratio filter *)

Lemma getAspectClass_success (Image : string -> JS.completion Metadata)
  (imagePath : string) (metadata : Metadata) (img : ImageStat) (others : list ImageStat) :
  Image imagePath = JS.Normal metadata ->
  jpeg metadata = img :: others ->
  getAspectClass Image imagePath
  = {| err := None; res := aspectClass (width img / height img)%float |}.
Proof.
  intros HI HJ. unfold getAspectClass, getAspectClass_try. rewrite HI, HJ. reflexivity.
Qed.

(** The chain of tests as a decision table on the three strict comparisons,
    for a ratio that is a number. *)
Lemma aspectClass_table (ratio : float) :
  is_nan ratio = false ->
  aspectClass ratio =
    if (ratio <? 0.7)%float then "aspect-portrait"
    else if (ratio <? 1.3)%float then "aspect-square"
    else if (ratio <? 1.8)%float then "aspect-landscape"
    else "aspect-panorama".
Proof.
  intros Hn. unfold aspectClass, JS.geb.
  rewrite !(B64.leb_negb_ltb ratio) by (assumption || reflexivity).
  destruct (ratio <? 0.7)%float, (ratio <? 1.3)%float, (ratio <? 1.8)%float; reflexivity.
Qed.

(** For sides that are whole numbers of pixels (below [2 ^ 32]) the class is
    decided by the exact ratio of the sides. *)
Lemma aspectClass_exact (W H : Z) :
  0 < W < 2 ^ 32 -> 0 < H < 2 ^ 32 ->
  aspectClass (JS.of_int W / JS.of_int H)%float =
    if 10 * W <? 7 * H then "aspect-portrait"
    else if 10 * W <? 13 * H then "aspect-square"
    else if 10 * W <? 18 * H then "aspect-landscape"
    else "aspect-panorama".
Proof.
  intros HW HH.
  assert (Hn : is_nan (JS.of_int W / JS.of_int H)%float = false).
  { destruct W as [|W|W]; try lia. destruct H as [|H|H]; try lia.
    destruct (B64.div_int_round W H ltac:(lia) ltac:(lia)) as (m3 & g & E & _).
    apply B64.is_nan_spec. rewrite E. discriminate. }
  rewrite (aspectClass_table _ Hn).
  destruct (B64.ratio_tests_exact W H HW HH) as (T1 & T2 & T3).
  destruct (JS.of_int W / JS.of_int H <? 0.7)%float, (Z.ltb_spec (10 * W) (7 * H));
    try reflexivity; try (exfalso; intuition (lia || discriminate)).
  destruct (JS.of_int W / JS.of_int H <? 1.3)%float, (Z.ltb_spec (10 * W) (13 * H));
    try reflexivity; try (exfalso; intuition (lia || discriminate)).
  destruct (JS.of_int W / JS.of_int H <? 1.8)%float, (Z.ltb_spec (10 * W) (18 * H));
    try reflexivity; exfalso; intuition (lia || discriminate).
Qed.

(** C1: for positive (finite) width and height the filter computes
    [ratio = width / height] and passes exactly one of the four class names
    to the callback, without an error: portrait exactly when [ratio < 0.7],
    square exactly when [0.7 <= ratio < 1.3], landscape exactly when
    [1.3 <= ratio < 1.8], panorama exactly when [ratio >= 1.8]; exactly one
    of the four ranges holds of the ratio.  The comparisons are those of the
    code, on binary64 numbers; when the sides are whole numbers of pixels
    (below [2 ^ 32]) they agree with the comparisons of the exact ratio
    [W / H] with 0.7, 1.3 and 1.8. *)
Theorem getAspectClass_partition (Image : string -> JS.completion Metadata)
  (imagePath : string) (metadata : Metadata) (img : ImageStat) (others : list ImageStat) :
  Image imagePath = JS.Normal metadata ->
  jpeg metadata = img :: others ->
  (0 <? width img)%float = true -> is_finite (width img) = true ->
  (0 <? height img)%float = true -> is_finite (height img) = true ->
  let ratio := (width img / height img)%float in
  let label := res (getAspectClass Image imagePath) in
  err (getAspectClass Image imagePath) = None
  /\ In label aspect_labels
  /\ (label = "aspect-portrait" <-> (ratio <? 0.7)%float = true)
  /\ (label = "aspect-square"
      <-> (0.7 <=? ratio)%float = true /\ (ratio <? 1.3)%float = true)
  /\ (label = "aspect-landscape"
      <-> (1.3 <=? ratio)%float = true /\ (ratio <? 1.8)%float = true)
  /\ (label = "aspect-panorama" <-> (1.8 <=? ratio)%float = true)
  /\ (Nat.b2n (ratio <? 0.7)%float
      + Nat.b2n ((0.7 <=? ratio)%float && (ratio <? 1.3)%float)
      + Nat.b2n ((1.3 <=? ratio)%float && (ratio <? 1.8)%float)
      + Nat.b2n (1.8 <=? ratio)%float = 1)%nat
  /\ (forall W H : Z,
        0 < W < 2 ^ 32 -> 0 < H < 2 ^ 32 ->
        width img = JS.of_int W -> height img = JS.of_int H ->
        (label = "aspect-portrait" <-> 10 * W < 7 * H)
        /\ (label = "aspect-square" <-> 7 * H <= 10 * W < 13 * H)
        /\ (label = "aspect-landscape" <-> 13 * H <= 10 * W < 18 * H)
        /\ (label = "aspect-panorama" <-> 18 * H <= 10 * W)).
Proof.
  intros HI HJ Hw Fw Hh Fh ratio label.
  assert (Exact : forall W H : Z,
             0 < W < 2 ^ 32 -> 0 < H < 2 ^ 32 ->
             width img = JS.of_int W -> height img = JS.of_int H ->
             (label = "aspect-portrait" <-> 10 * W < 7 * H)
             /\ (label = "aspect-square" <-> 7 * H <= 10 * W < 13 * H)
             /\ (label = "aspect-landscape" <-> 13 * H <= 10 * W < 18 * H)
             /\ (label = "aspect-panorama" <-> 18 * H <= 10 * W)).
  { intros W H HW HH EW EH. subst label.
    rewrite (getAspectClass_success Image imagePath metadata img others HI HJ).
    cbn [res]. rewrite EW, EH, (aspectClass_exact W H HW HH).
    destruct (Z.ltb_spec (10 * W) (7 * H)); [|destruct (Z.ltb_spec (10 * W) (13 * H));
      [|destruct (Z.ltb_spec (10 * W) (18 * H))]];
      repeat split; intros; try discriminate; try reflexivity; lia. }
  match goal with |- _ /\ _ /\ _ /\ _ /\ _ /\ _ /\ _ /\ ?E => set (X := E) in * end.
  clearbody X.
  assert (Hn : is_nan ratio = false) by (apply B64.div_positive_not_nan; assumption).
  subst label. rewrite (getAspectClass_success Image imagePath metadata img others HI HJ).
  cbn [err res]. fold ratio. rewrite (aspectClass_table ratio Hn).
  rewrite !(B64.leb_negb_ltb ratio) by (assumption || reflexivity).
  pose proof (B64.ltb_trans ratio 0.7 1.3) as T1.
  pose proof (B64.ltb_trans ratio 1.3 1.8) as T2.
  unfold aspect_labels.
  destruct (ratio <? 0.7)%float eqn:E1.
  - rewrite (T1 eq_refl eq_refl) in *. rewrite (T2 eq_refl eq_refl).
    cbn. repeat split; intros; try discriminate; intuition (discriminate || auto).
  - destruct (ratio <? 1.3)%float eqn:E2.
    + rewrite (T2 eq_refl eq_refl).
      cbn. repeat split; intros; try discriminate; intuition (discriminate || auto).
    + destruct (ratio <? 1.8)%float eqn:E3;
        cbn; repeat split; intros; try discriminate; intuition (discriminate || auto).
Qed.

Lemma getAspectClass_partition_witness :
  let Image := sampleImage 1200 800 in
  let img := {| width := 1200; height := 800 |} in
  ((0 <? width img)%float = true /\ is_finite (width img) = true
   /\ (0 <? height img)%float = true /\ is_finite (height img) = true)
  /\ (res (getAspectClass Image "photo.jpg") = "aspect-landscape"
      <-> (1.3 <=? width img / height img)%float = true
          /\ (width img / height img <? 1.8)%float = true).
Proof.
  split; [repeat split; reflexivity|].
  apply (getAspectClass_partition (sampleImage 1200 800) "photo.jpg"
           {| jpeg := [{| width := 1200; height := 800 |}] |}
           {| width := 1200; height := 800 |} []); reflexivity.
Defined.

(** C2: the sample ratios and the inclusive lower bounds: 1.0 is square, 0.5
    portrait, 1.5 landscape, 2.0 panorama, 0.7 square and 1.3 landscape; the
    same for images whose sides give these ratios. *)
Theorem aspectClass_samples :
  aspectClass 1.0 = "aspect-square"
  /\ aspectClass 0.5 = "aspect-portrait"
  /\ aspectClass 1.5 = "aspect-landscape"
  /\ aspectClass 2.0 = "aspect-panorama"
  /\ aspectClass 0.7 = "aspect-square"
  /\ aspectClass 1.3 = "aspect-landscape"
  /\ res (getAspectClass (sampleImage 700 1000) "a.jpg") = "aspect-square"
  /\ res (getAspectClass (sampleImage 1300 1000) "a.jpg") = "aspect-landscape"
  /\ res (getAspectClass (sampleImage 1000 1000) "a.jpg") = "aspect-square"
  /\ res (getAspectClass (sampleImage 2000 1000) "a.jpg") = "aspect-panorama".
Proof. repeat split; vm_compute; reflexivity. Qed.

(** C3: when the dimensions cannot be determined (the image step throws, or
    it reports no jpeg entry so that reading the width throws) the filter
    calls back with no error and the class [aspect-landscape]. *)
Theorem getAspectClass_fails_soft (Image : string -> JS.completion Metadata)
  (imagePath : string) :
  (exists e, Image imagePath = JS.Throw e)
  \/ (exists metadata, Image imagePath = JS.Normal metadata /\ jpeg metadata = []) ->
  getAspectClass Image imagePath = {| err := None; res := "aspect-landscape" |}.
Proof.
  unfold getAspectClass, getAspectClass_try.
  intros [[e He]|[metadata [Hm Hj]]].
  - rewrite He. reflexivity.
  - rewrite Hm, Hj. reflexivity.
Qed.

Lemma getAspectClass_fails_soft_witness :
  let Image := fun _ : string => @JS.Throw Metadata "ENOENT" in
  (exists e, Image "missing.jpg" = JS.Throw e)
  /\ getAspectClass Image "missing.jpg" = {| err := None; res := "aspect-landscape" |}.
Proof.
  split; [exists "ENOENT"; reflexivity|].
  apply (getAspectClass_fails_soft (fun _ => JS.Throw "ENOENT") "missing.jpg").
  left. exists "ENOENT". reflexivity.
Defined.

(** C10: when the ratio is NaN no test of the chain succeeds and the filter
    calls back with the initial class [aspect-landscape] and no error; a
    width and a height of 0 give such a ratio. *)
Theorem getAspectClass_nan (Image : string -> JS.completion Metadata)
  (imagePath : string) (metadata : Metadata) (img : ImageStat) (others : list ImageStat) :
  Image imagePath = JS.Normal metadata ->
  jpeg metadata = img :: others ->
  is_nan (width img / height img)%float = true ->
  getAspectClass Image imagePath = {| err := None; res := "aspect-landscape" |}.
Proof.
  intros HI HJ Hn.
  rewrite (getAspectClass_success Image imagePath metadata img others HI HJ).
  f_equal. unfold aspectClass, JS.geb.
  rewrite !B64.ltb_nan_l, !B64.leb_nan_r by assumption. reflexivity.
Qed.

Lemma getAspectClass_nan_witness :
  is_nan (0 / 0)%float = true
  /\ getAspectClass (sampleImage 0 0) "empty.jpg"
     = {| err := None; res := "aspect-landscape" |}.
Proof.
  split; [reflexivity|].
  apply (getAspectClass_nan (sampleImage 0 0) "empty.jpg"
           {| jpeg := [{| width := 0; height := 0 |}] |}
           {| width := 0; height := 0 |} []); reflexivity.
Defined.

(** *** Every outcome, the order of the classes, and sizes *)

(** Whatever the image step does (it throws, it reports no jpeg entry, it
    reports sides that are no numbers, zero, negative or infinite), the
    filter passes no error to the callback, and the class it passes is one of
    the four class names. *)
Theorem getAspectClass_total (Image : string -> JS.completion Metadata) (imagePath : string) :
  err (getAspectClass Image imagePath) = None
  /\ In (res (getAspectClass Image imagePath)) aspect_labels.
Proof.
  unfold getAspectClass, getAspectClass_try, aspect_labels.
  destruct (Image imagePath) as [metadata|e]; [|cbn; auto].
  destruct (jpeg metadata) as [|img others]; [cbn; auto|].
  cbn [err res]. split; [reflexivity|].
  unfold aspectClass.
  destruct (_ <? 0.7)%float; [cbn; auto|].
  destruct (_ && _); [cbn; auto|].
  destruct (_ && _); [cbn; auto|].
  destruct (JS.geb _ 1.8); cbn; auto.
Qed.

(** The chain of tests is monotone: of two ratios, the larger one never gets
    a narrower class (in the order portrait, square, landscape, panorama). *)
Theorem aspectClass_monotone (r1 r2 : float) :
  (r1 <=? r2)%float = true ->
  (aspect_rank (aspectClass r1) <= aspect_rank (aspectClass r2))%nat.
Proof.
  intros H. destruct (B64.leb_not_nan r1 r2 H) as [N1 N2].
  rewrite (aspectClass_table r1 N1), (aspectClass_table r2 N2).
  pose proof (B64.leb_ltb_trans r1 r2 0.7 H) as T1.
  pose proof (B64.leb_ltb_trans r1 r2 1.3 H) as T2.
  pose proof (B64.leb_ltb_trans r1 r2 1.8 H) as T3.
  destruct (r2 <? 0.7)%float; [rewrite (T1 eq_refl); cbn; lia|].
  destruct (r2 <? 1.3)%float;
    [rewrite (T2 eq_refl); destruct (r1 <? 0.7)%float; cbn; lia|].
  destruct (r2 <? 1.8)%float;
    [rewrite (T3 eq_refl); destruct (r1 <? 0.7)%float, (r1 <? 1.3)%float; cbn; lia|].
  destruct (r1 <? 0.7)%float, (r1 <? 1.3)%float, (r1 <? 1.8)%float; cbn; lia.
Qed.

Lemma aspectClass_monotone_witness :
  (1.5 <=? 1.79)%float = true
  /\ (aspect_rank (aspectClass 1.5) <= aspect_rank (aspectClass 1.79))%nat.
Proof.
  split; [reflexivity|]. apply (aspectClass_monotone 1.5 1.79). reflexivity.
Defined.

(** The class does not depend on the size of the image: an image of
    [k * W] by [k * H] pixels gets the class of one of [W] by [H] pixels (whole
    numbers of pixels below [2 ^ 32]). *)
Theorem getAspectClass_scale_invariant (W H k : Z) (path1 path2 : string) :
  0 < W -> 0 < H -> 0 < k -> k * W < 2 ^ 32 -> k * H < 2 ^ 32 ->
  getAspectClass (sampleImage (JS.of_int (k * W)) (JS.of_int (k * H))) path1
  = getAspectClass (sampleImage (JS.of_int W) (JS.of_int H)) path2.
Proof.
  intros HW HH Hk HkW HkH.
  unfold getAspectClass, getAspectClass_try, sampleImage. cbn [jpeg width height].
  f_equal.
  assert (SW : 1 * W <= k * W) by (apply Z.mul_le_mono_nonneg_r; lia).
  assert (SH : 1 * H <= k * H) by (apply Z.mul_le_mono_nonneg_r; lia).
  rewrite (aspectClass_exact (k * W) (k * H)) by lia.
  rewrite (aspectClass_exact W H) by lia.
  assert (S : forall a b, (a * (k * W) <? b * (k * H)) = (a * W <? b * H)).
  { intros a b.
    replace (a * (k * W)) with (k * (a * W)) by ring.
    replace (b * (k * H)) with (k * (b * H)) by ring.
    destruct (Z.ltb_spec (a * W) (b * H)) as [C|C], (Z.ltb_spec (k * (a * W)) (k * (b * H)))
      as [C'|C']; try reflexivity; exfalso.
    - apply (Z.mul_lt_mono_pos_l k) in C; lia.
    - apply (Z.mul_le_mono_nonneg_l _ _ k) in C; lia. }
  rewrite !S. reflexivity.
Qed.

Lemma getAspectClass_scale_invariant_witness :
  (0 < 640 /\ 0 < 360 /\ 0 < 3 /\ 3 * 640 < 2 ^ 32 /\ 3 * 360 < 2 ^ 32)
  /\ getAspectClass (sampleImage (JS.of_int (3 * 640)) (JS.of_int (3 * 360))) "large.jpg"
     = getAspectClass (sampleImage (JS.of_int 640) (JS.of_int 360)) "small.jpg".
Proof.
  split; [lia|].
  apply (getAspectClass_scale_invariant 640 360 3 "large.jpg" "small.jpg"); lia.
Defined.

(** A quarter turn swaps the sides.  It makes a portrait of every panorama;
    it never makes a square or a portrait of a portrait, and never a
    landscape or a panorama of a landscape (sides in whole pixels below
    [2 ^ 32]). *)
Theorem getAspectClass_quarter_turn (W H : Z) (path1 path2 : string) :
  0 < W < 2 ^ 32 -> 0 < H < 2 ^ 32 ->
  let upright := res (getAspectClass (sampleImage (JS.of_int W) (JS.of_int H)) path1) in
  let turned := res (getAspectClass (sampleImage (JS.of_int H) (JS.of_int W)) path2) in
  (upright = "aspect-panorama" -> turned = "aspect-portrait")
  /\ (upright = "aspect-portrait"
      -> turned = "aspect-landscape" \/ turned = "aspect-panorama")
  /\ (upright = "aspect-landscape"
      -> turned = "aspect-portrait" \/ turned = "aspect-square").
Proof.
  intros HW HH upright turned. subst upright turned.
  unfold getAspectClass, getAspectClass_try, sampleImage. cbn [jpeg width height res].
  rewrite (aspectClass_exact W H HW HH), (aspectClass_exact H W HH HW).
  destruct (Z.ltb_spec (10 * W) (7 * H)), (Z.ltb_spec (10 * W) (13 * H)),
    (Z.ltb_spec (10 * W) (18 * H)), (Z.ltb_spec (10 * H) (7 * W)),
    (Z.ltb_spec (10 * H) (13 * W)), (Z.ltb_spec (10 * H) (18 * W));
    try lia; repeat split; intros; try discriminate; auto.
Qed.

Lemma getAspectClass_quarter_turn_witness :
  (0 < 4000 < 2 ^ 32 /\ 0 < 2000 < 2 ^ 32)
  /\ (res (getAspectClass (sampleImage (JS.of_int 4000) (JS.of_int 2000)) "a.jpg")
      = "aspect-panorama"
      -> res (getAspectClass (sampleImage (JS.of_int 2000) (JS.of_int 4000)) "b.jpg")
         = "aspect-portrait").
Proof.
  split; [lia|].
  apply (getAspectClass_quarter_turn 4000 2000 "a.jpg" "b.jpg"); lia.
Defined.

(** Division by zero: a positive width over a height of 0 is [Infinity],
    which passes the last test of the chain; the class is
    [aspect-panorama], with no error. *)
Theorem getAspectClass_zero_height (Image : string -> JS.completion Metadata)
  (imagePath : string) (metadata : Metadata) (img : ImageStat) (others : list ImageStat) :
  Image imagePath = JS.Normal metadata ->
  jpeg metadata = img :: others ->
  (0 <? width img)%float = true -> height img = 0%float ->
  (width img / height img)%float = infinity
  /\ getAspectClass Image imagePath = {| err := None; res := "aspect-panorama" |}.
Proof.
  intros HI HJ Hw Hh.
  assert (E : (width img / height img)%float = infinity).
  { rewrite <- (SF2Prim_Prim2SF (width img / height img)%float).
    rewrite FloatAxioms.div_spec, Hh. unfold SF64div.
    rewrite FloatAxioms.ltb_spec in Hw. change (Prim2SF 0) with (S754_zero false) in *.
    destruct (Prim2SF (width img)) as [s|s| |s m e]; try discriminate;
      destruct s; try discriminate; reflexivity. }
  split; [exact E|].
  rewrite (getAspectClass_success Image imagePath metadata img others HI HJ), E.
  reflexivity.
Qed.

Lemma getAspectClass_zero_height_witness :
  (0 <? 1200)%float = true
  /\ getAspectClass (sampleImage 1200 0) "wide.jpg"
     = {| err := None; res := "aspect-panorama" |}.
Proof.
  split; [reflexivity|].
  apply (getAspectClass_zero_height (sampleImage 1200 0) "wide.jpg"
           {| jpeg := [{| width := 1200; height := 0 |}] |}
           {| width := 1200; height := 0 |} []); reflexivity.
Defined.

(** The filter asks for one image of width 1.  When the report has that
    width and a whole number [h] of pixels as height, the class is panorama
    for [h = 0], square for [h = 1] and portrait from [h = 2] on: such a
    report never gives [aspect-landscape]. *)
Theorem getAspectClass_width_one (Image : string -> JS.completion Metadata)
  (imagePath : string) (metadata : Metadata) (img : ImageStat) (others : list ImageStat)
  (h : Z) :
  Image imagePath = JS.Normal metadata ->
  jpeg metadata = img :: others ->
  width img = JS.of_int 1 -> height img = JS.of_int h -> 0 <= h < 2 ^ 32 ->
  res (getAspectClass Image imagePath)
  = (if h =? 0 then "aspect-panorama"
     else if h =? 1 then "aspect-square"
     else "aspect-portrait").
Proof.
  intros HI HJ EW EH Hh.
  rewrite (getAspectClass_success Image imagePath metadata img others HI HJ).
  cbn [res]. rewrite EW, EH.
  destruct (Z.eqb_spec h 0) as [->|N0]; [vm_compute; reflexivity|].
  destruct (Z.eqb_spec h 1) as [->|N1]; [vm_compute; reflexivity|].
  rewrite (aspectClass_exact 1 h) by lia.
  destruct (Z.ltb_spec (10 * 1) (7 * h)); [reflexivity|lia].
Qed.

Lemma getAspectClass_width_one_witness :
  0 <= 3 < 2 ^ 32
  /\ res (getAspectClass (sampleImage (JS.of_int 1) (JS.of_int 3)) "tall.jpg")
     = "aspect-portrait".
Proof.
  split; [lia|].
  apply (getAspectClass_width_one (sampleImage (JS.of_int 1) (JS.of_int 3)) "tall.jpg"
           {| jpeg := [{| width := JS.of_int 1; height := JS.of_int 3 |}] |}
           {| width := JS.of_int 1; height := JS.of_int 3 |} [] 3);
    try reflexivity. lia.
Defined.

(** ** The image shortcode *)

(** An image that eleventy-img cannot read (the call throws [e] whatever the
    options) makes the shortcode fail with [e], whatever [alt] and [sizes]
    are, while the aspect-ratio filter, on the same path, reports
    [aspect-landscape] and no error. *)
Theorem unreadable_image_breaks_shortcode_not_filter
  (Image : string -> ImageOptions -> JS.completion Metadata)
  (generateHTML : Metadata -> ImageAttributes -> JS.completion string)
  (src : string) (alt sizes : option string) (e : string) :
  (forall options, Image src options = JS.Throw e) ->
  imageShortcode Image generateHTML src alt sizes = JS.Throw e
  /\ getAspectClass (aspectImage Image) src = {| err := None; res := "aspect-landscape" |}.
Proof.
  intros H. unfold imageShortcode, getAspectClass, getAspectClass_try, aspectImage.
  rewrite !H. split; reflexivity.
Qed.

Lemma unreadable_image_breaks_shortcode_not_filter_witness :
  let Image := fun (_ : string) (_ : ImageOptions) => @JS.Throw Metadata "ENOENT" in
  let generateHTML := fun (_ : Metadata) (_ : ImageAttributes) => JS.Normal "<picture>" in
  (forall options, Image "missing.jpg" options = JS.Throw "ENOENT")
  /\ imageShortcode Image generateHTML "missing.jpg" (Some "A photo") None = JS.Throw "ENOENT"
  /\ getAspectClass (aspectImage Image) "missing.jpg"
     = {| err := None; res := "aspect-landscape" |}.
Proof.
  split; [reflexivity|].
  apply (unreadable_image_breaks_shortcode_not_filter
           (fun _ _ => JS.Throw "ENOENT") (fun _ _ => JS.Normal "<picture>")
           "missing.jpg" (Some "A photo") None "ENOENT").
  reflexivity.
Defined.

(** ** The collections *)

Section CollectionFacts.

Context {Item : Type}.

Lemma rev_nth_error_mirror (l : list Item) (i : nat) :
  (i < List.length l)%nat ->
  nth_error (rev l) i = nth_error l (List.length l - 1 - i).
Proof.
  intros Hi. rewrite nth_error_rev.
  rewrite (proj2 (Nat.ltb_lt i (List.length l)) Hi).
  f_equal. lia.
Qed.

Lemma rev_reversed_listing (files : list Item) : reversed_listing files (rev files).
Proof.
  repeat split.
  - apply length_rev.
  - intros i Hi. apply rev_nth_error_mirror. assumption.
  - apply Permutation_rev.
Qed.

End CollectionFacts.

(** C4: the [posts] and the [photos] collection are each the listing of the
    files matching the glob, reversed: the same length N, item [i] of the
    collection is item [N - 1 - i] of the listing, and every item is kept as
    often as it is listed (no item is dropped, merged or moved otherwise). *)
Theorem collections_reverse_listing {Item : Type} (api : CollectionApi Item) :
  (exists result,
      collection (configure emptyConfig) "posts" api = Some result
      /\ reversed_listing (getFilteredByGlob api "src/posts/*.md") result)
  /\ (exists result,
      collection (configure emptyConfig) "photos" api = Some result
      /\ reversed_listing (getFilteredByGlob api "src/photos/*.md") result).
Proof.
  split; eexists; (split; [reflexivity|]); apply rev_reversed_listing.
Qed.

(** C9: the two builders are one function of the glob (the builder of the
    specification, at the two globs), so on equal listings they give equal
    collections. *)
Theorem builders_agree {Item : Type} (api1 api2 : CollectionApi Item) :
  getFilteredByGlob api1 "src/posts/*.md" = getFilteredByGlob api2 "src/photos/*.md" ->
  posts api1 = photos api2
  /\ collection (configure emptyConfig) "posts" api1
     = collection (configure emptyConfig) "photos" api2
  /\ posts api1 = spec_builder "src/posts/*.md" api1
  /\ photos api2 = spec_builder "src/photos/*.md" api2.
Proof.
  intros H. unfold posts, photos, spec_builder.
  repeat split. 
  - rewrite H. reflexivity.
  - cbn. unfold posts, photos. rewrite H. reflexivity.
Qed.

Lemma builders_agree_witness :
  let api := sampleApi ["a.md"; "b.md"; "b.md"; "c.md"] in
  getFilteredByGlob api "src/posts/*.md" = getFilteredByGlob api "src/photos/*.md"
  /\ posts api = photos api
  /\ posts api = ["c.md"; "b.md"; "b.md"; "a.md"].
Proof.
  split; [reflexivity|]. split; [|reflexivity].
  apply (builders_agree (sampleApi ["a.md"; "b.md"; "b.md"; "c.md"])
           (sampleApi ["a.md"; "b.md"; "b.md"; "c.md"])).
  reflexivity.
Defined.

(** *** The order of a collection *)

Section CollectionOrder.

Context {Item : Type}.

Lemma StronglySorted_snoc (R : Item -> Item -> Prop) (l : list Item) (a : Item) :
  StronglySorted R l -> Forall (fun b => R b a) l -> StronglySorted R (l ++ [a]).
Proof.
  induction 1 as [|b l S IH F]; intros Fa; cbn.
  - constructor; constructor.
  - inversion Fa as [|? ? Hb Fl]; subst.
    constructor; [apply IH; assumption|].
    apply Forall_app. split; [assumption|]. constructor; [assumption|constructor].
Qed.

(** A list in which every item stands before all the later ones, reversed:
    every item stands before all the earlier ones. *)
Lemma StronglySorted_rev (R : Item -> Item -> Prop) (l : list Item) :
  StronglySorted R l -> StronglySorted (fun a b => R b a) (rev l).
Proof.
  induction 1 as [|a l S IH F]; cbn; [constructor|].
  apply StronglySorted_snoc; [exact IH|].
  apply Forall_rev. exact F.
Qed.

End CollectionOrder.

(** When the collection API lists the items in an order (11ty lists them
    oldest first), every collection of the configuration has them in the
    opposite order (newest first): each item of the listing that stood
    before another one stands after it in the collection. *)
Theorem collections_newest_first {Item : Type} (before : Item -> Item -> Prop)
  (api : CollectionApi Item) (name : string) (items : list Item) :
  (forall glob, StronglySorted before (getFilteredByGlob api glob)) ->
  collection (configure emptyConfig) name api = Some items ->
  StronglySorted (fun a b => before b a) items.
Proof.
  intros HS. unfold collection, configure, emptyConfig, addCollection, addPassthroughCopy.
  cbn [collections app findBuilder].
  destruct (String.eqb "posts" name);
    [|destruct (String.eqb "photos" name); [|discriminate]];
    intros E; injection E as <-; apply StronglySorted_rev; apply HS.
Qed.

Lemma collections_newest_first_witness :
  let api := {| getFilteredByGlob := fun _ : string => [1; 2; 2; 5] |} in
  (forall glob, StronglySorted Z.le (getFilteredByGlob api glob))
  /\ collection (configure emptyConfig) "posts" api = Some [5; 2; 2; 1]
  /\ StronglySorted (fun a b => b <= a) [5; 2; 2; 1].
Proof.
  assert (H : forall glob : string,
             StronglySorted Z.le
               (getFilteredByGlob {| getFilteredByGlob := fun _ : string => [1; 2; 2; 5] |} glob)).
  { intros glob. cbn. repeat (constructor; [|repeat constructor; lia]). constructor. }
  split; [exact H|]. split; [reflexivity|].
  apply (collections_newest_first Z.le
           {| getFilteredByGlob := fun _ : string => [1; 2; 2; 5] |} "posts" [5; 2; 2; 1] H).
  reflexivity.
Defined.

(** ** The calendar of the language standard *)

Module JSDateFacts.
Import JSDate.

Lemma DaysInYear_spec y : DayFromYear (y + 1) - DayFromYear y = DaysInYear y.
Proof.
  unfold DayFromYear, DaysInYear.
  replace (y + 1 - 1969) with (y - 1969 + 1) by lia.
  replace (y + 1 - 1901) with (y - 1901 + 1) by lia.
  replace (y + 1 - 1601) with (y - 1601 + 1) by lia.
  destruct (Z.eqb_spec (y mod 4) 0); cbn [negb];
  [destruct (Z.eqb_spec (y mod 100) 0); cbn [negb];
   [destruct (Z.eqb_spec (y mod 400) 0); cbn [negb]|]|];
  Z.div_mod_to_equations; lia.
Qed.

Lemma YearFromTime_spec t :
  DayFromYear (YearFromTime t) <= Day t < DayFromYear (YearFromTime t + 1).
Proof.
  unfold YearFromTime. set (d := Day t). clearbody d.
  set (y := 1970 + 400 * d / 146097).
  destruct (Z.ltb_spec d (DayFromYear y)); [|destruct (Z.leb_spec (DayFromYear (y + 1)) d)].
  all: unfold DayFromYear in *; subst y; Z.div_mod_to_equations; lia.
Qed.

Lemma DayFromYear_mono y y' : y <= y' -> DayFromYear y <= DayFromYear y'.
Proof. unfold DayFromYear. intros H. Z.div_mod_to_equations. lia. Qed.

(** [YearFromTime t] is the largest year that starts at or before [t]. *)
Lemma YearFromTime_largest t y :
  TimeFromYear y <= t <-> y <= YearFromTime t.
Proof.
  pose proof (YearFromTime_spec t) as [L U].
  unfold TimeFromYear, Day, msPerDay in *.
  split; intros H.
  - destruct (Z_le_gt_dec y (YearFromTime t)) as [|G]; [assumption|exfalso].
    pose proof (DayFromYear_mono (YearFromTime t + 1) y ltac:(lia)).
    Z.div_mod_to_equations. lia.
  - pose proof (DayFromYear_mono y (YearFromTime t) H).
    Z.div_mod_to_equations. lia.
Qed.

Lemma InLeapYear_spec t :
  DaysInYear (YearFromTime t) = 365 + InLeapYear t /\ 0 <= InLeapYear t <= 1.
Proof.
  unfold InLeapYear, DaysInYear.
  destruct (negb (YearFromTime t mod 4 =? 0)); [cbn; lia|].
  destruct (negb (YearFromTime t mod 100 =? 0)); [cbn; lia|].
  destruct (negb (YearFromTime t mod 400 =? 0)); cbn; lia.
Qed.

Lemma DayWithinYear_range t : 0 <= DayWithinYear t < 365 + InLeapYear t.
Proof.
  pose proof (YearFromTime_spec t). pose proof (DaysInYear_spec (YearFromTime t)).
  pose proof (InLeapYear_spec t). unfold DayWithinYear. lia.
Qed.

Lemma calendar_fields t :
  0 <= MonthFromTime t <= 11
  /\ 1 <= DateFromTime t <= daysInMonth (InLeapYear t) (MonthFromTime t)
  /\ MakeDay (YearFromTime t) (MonthFromTime t) (DateFromTime t) = Day t.
Proof.
  pose proof (DayWithinYear_range t) as R. pose proof (InLeapYear_spec t) as [L1 L2].
  unfold MakeDay. fold (InLeapYear t).
  assert (E : Day t = DayFromYear (YearFromTime t) + DayWithinYear t)
    by (unfold DayWithinYear; lia).
  rewrite E. unfold DateFromTime, MonthFromTime.
  set (d := DayWithinYear t) in *. set (l := InLeapYear t) in *.
  clearbody d l. clear E L1.
  repeat match goal with
         | |- context [if ?a <? ?b then _ else _] => destruct (Z.ltb_spec a b)
         end; cbn [daysBeforeMonth daysInMonth]; lia.
Qed.

(** *** The order of calendar dates *)

Lemma daysBeforeMonth_mono (l m m' : Z) :
  0 <= l -> 0 <= m -> m < m' <= 11 ->
  daysBeforeMonth l m + daysInMonth l m <= daysBeforeMonth l m'.
Proof.
  intros Hl Hm Hm'.
  assert (C : m = 0 \/ m = 1 \/ m = 2 \/ m = 3 \/ m = 4 \/ m = 5 \/ m = 6
              \/ m = 7 \/ m = 8 \/ m = 9 \/ m = 10) by lia.
  assert (C' : m' = 1 \/ m' = 2 \/ m' = 3 \/ m' = 4 \/ m' = 5 \/ m' = 6
              \/ m' = 7 \/ m' = 8 \/ m' = 9 \/ m' = 10 \/ m' = 11) by lia.
  repeat (destruct C as [C|C]); subst m; repeat (destruct C' as [C'|C']); subst m';
    cbn [daysBeforeMonth daysInMonth]; lia.
Qed.

(** A calendar date: a month from 0 to 11 and a day that the month of that
    year has. *)
Lemma MakeDay_within_year (y m d : Z) :
  0 <= m <= 11 ->
  1 <= d <= daysInMonth (if DaysInYear y =? 366 then 1 else 0) m ->
  DayFromYear y <= MakeDay y m d < DayFromYear (y + 1).
Proof.
  intros Hm Hd. unfold MakeDay.
  pose proof (DaysInYear_spec y) as S.
  set (l := if DaysInYear y =? 366 then 1 else 0) in *.
  assert (L : 0 <= l <= 1 /\ DaysInYear y = 365 + l).
  { subst l. unfold DaysInYear.
    destruct (negb (y mod 4 =? 0)); [cbn; lia|].
    destruct (negb (y mod 100 =? 0)); [cbn; lia|].
    destruct (negb (y mod 400 =? 0)); cbn; lia. }
  assert (B : 0 <= daysBeforeMonth l m /\ daysBeforeMonth l m + daysInMonth l m <= 365 + l).
  { assert (C : m = 0 \/ m = 1 \/ m = 2 \/ m = 3 \/ m = 4 \/ m = 5 \/ m = 6
              \/ m = 7 \/ m = 8 \/ m = 9 \/ m = 10 \/ m = 11) by lia.
    repeat (destruct C as [C|C]); subst m; cbn [daysBeforeMonth daysInMonth]; lia. }
  lia.
Qed.

(** Calendar dates are ordered as their day numbers: by year, then month,
    then day of the month. *)
Lemma MakeDay_compare (y m d y' m' d' : Z) :
  0 <= m <= 11 -> 1 <= d <= daysInMonth (if DaysInYear y =? 366 then 1 else 0) m ->
  0 <= m' <= 11 -> 1 <= d' <= daysInMonth (if DaysInYear y' =? 366 then 1 else 0) m' ->
  (MakeDay y m d ?= MakeDay y' m' d')
  = match y ?= y' with
    | Eq => match m ?= m' with Eq => d ?= d' | c => c end
    | c => c
    end.
Proof.
  intros Hm Hd Hm' Hd'.
  pose proof (MakeDay_within_year y m d Hm Hd) as B.
  pose proof (MakeDay_within_year y' m' d' Hm' Hd') as B'.
  destruct (Z.compare_spec y y') as [E|L|G].
  - subst y'. unfold MakeDay in *.
    set (l := if DaysInYear y =? 366 then 1 else 0) in *.
    assert (Hl : 0 <= l) by (subst l; destruct (DaysInYear y =? 366); lia).
    destruct (Z.compare_spec m m') as [E|L|G].
    + subst m'. destruct (Z.compare_spec d d'); [apply Z.compare_eq_iff|apply Z.compare_lt_iff|apply Z.compare_gt_iff]; lia.
    + pose proof (daysBeforeMonth_mono l m m' Hl ltac:(lia) ltac:(lia)). apply Z.compare_lt_iff. lia.
    + pose proof (daysBeforeMonth_mono l m' m Hl ltac:(lia) ltac:(lia)). apply Z.compare_gt_iff. lia.
  - pose proof (DayFromYear_mono (y + 1) y' ltac:(lia)). apply Z.compare_lt_iff. lia.
  - pose proof (DayFromYear_mono (y' + 1) y ltac:(lia)). apply Z.compare_gt_iff. lia.
Qed.

(** The calendar fields of the instants of a day: those of the date. *)
Lemma fields_of_MakeDay (y m d t : Z) :
  0 <= m <= 11 -> 1 <= d <= daysInMonth (if DaysInYear y =? 366 then 1 else 0) m ->
  Day t = MakeDay y m d ->
  YearFromTime t = y /\ MonthFromTime t = m /\ DateFromTime t = d.
Proof.
  intros Hm Hd E.
  pose proof (calendar_fields t) as (Hm' & Hd' & E').
  change (InLeapYear t) with (if DaysInYear (YearFromTime t) =? 366 then 1 else 0) in Hd'.
  pose proof (MakeDay_compare y m d _ _ _ Hm Hd Hm' Hd') as C.
  rewrite E', E, Z.compare_refl in C.
  destruct (Z.compare_spec y (YearFromTime t)); try discriminate.
  destruct (Z.compare_spec m (MonthFromTime t)); try discriminate.
  destruct (Z.compare_spec d (DateFromTime t)); try discriminate.
  repeat split; congruence.
Qed.

(** Instants are ordered by day as their calendar dates are. *)
Lemma calendar_order (t t' : Z) :
  (Day t ?= Day t')
  = match YearFromTime t ?= YearFromTime t' with
    | Eq => match MonthFromTime t + 1 ?= MonthFromTime t' + 1 with
            | Eq => DateFromTime t ?= DateFromTime t'
            | c => c
            end
    | c => c
    end.
Proof.
  pose proof (calendar_fields t) as (Hm & Hd & E).
  pose proof (calendar_fields t') as (Hm' & Hd' & E').
  rewrite <- E, <- E'.
  rewrite MakeDay_compare; try assumption.
  replace (MonthFromTime t + 1 ?= MonthFromTime t' + 1) with (MonthFromTime t ?= MonthFromTime t')
    by (destruct (Z.compare_spec (MonthFromTime t) (MonthFromTime t')),
           (Z.compare_spec (MonthFromTime t + 1) (MonthFromTime t' + 1));
        try reflexivity; lia).
  reflexivity.
Qed.

End JSDateFacts.

(** ** Printing numbers *)

Module LuxonFacts.
Import JSDate Luxon.

Lemma digit_spec d :
  0 <= d <= 9 ->
  is_digit (digit d) = true /\ Z.of_nat (nat_of_ascii (digit d)) = 48 + d.
Proof.
  intros H.
  assert (C : d = 0 \/ d = 1 \/ d = 2 \/ d = 3 \/ d = 4 \/ d = 5 \/ d = 6
              \/ d = 7 \/ d = 8 \/ d = 9) by lia.
  repeat (destruct C as [->|C]; [split; reflexivity|]).
  subst d. split; reflexivity.
Qed.

Lemma decimal_loop_last fuel n acc :
  n < 10 -> decimal_loop (S fuel) n acc = String (digit (n mod 10)) acc.
Proof. intros H. cbn [decimal_loop]. destruct (Z.ltb_spec n 10); [reflexivity|lia]. Qed.

Lemma decimal_loop_more fuel n acc :
  10 <= n ->
  decimal_loop (S fuel) n acc = decimal_loop fuel (n / 10) (String (digit (n mod 10)) acc).
Proof. intros H. cbn [decimal_loop]. destruct (Z.ltb_spec n 10); [lia|reflexivity]. Qed.

Lemma decimal_fuel n :
  10 <= n -> exists k, S (Z.to_nat (Z.log2 n)) = S (S (S (S k))).
Proof.
  intros H. pose proof (Z.log2_le_mono 8 n ltac:(lia)) as L.
  change (Z.log2 8) with 3 in L.
  exists (Z.to_nat (Z.log2 n) - 3)%nat. lia.
Qed.

(** Up to four digits: the decimal numeral, padded with zeros. *)
Lemma padStart_4 n :
  0 <= n <= 9999 ->
  padStart n 4 =
  String (digit (n / 1000)) (String (digit (n / 100 mod 10))
    (String (digit (n / 10 mod 10)) (String (digit (n mod 10)) ""))).
Proof.
  intros H. unfold padStart. destruct (Z.ltb_spec n 0); [lia|].
  unfold decimal.
  destruct (Z_lt_le_dec n 10) as [C1|C1].
  { rewrite decimal_loop_last by lia.
    replace (n / 1000) with 0 by (Z.div_mod_to_equations; lia).
    replace (n / 100) with 0 by (Z.div_mod_to_equations; lia).
    replace (n / 10) with 0 by (Z.div_mod_to_equations; lia).
    reflexivity. }
  destruct (decimal_fuel n C1) as [k ->].
  rewrite decimal_loop_more by lia.
  destruct (Z_lt_le_dec n 100) as [C2|C2].
  { rewrite decimal_loop_last by (Z.div_mod_to_equations; lia).
    replace (n / 1000) with 0 by (Z.div_mod_to_equations; lia).
    replace (n / 100) with 0 by (Z.div_mod_to_equations; lia).
    reflexivity. }
  rewrite decimal_loop_more by (Z.div_mod_to_equations; lia).
  rewrite Z.div_div by lia. change (10 * 10) with 100.
  destruct (Z_lt_le_dec n 1000) as [C3|C3].
  { rewrite decimal_loop_last by (Z.div_mod_to_equations; lia).
    replace (n / 1000) with 0 by (Z.div_mod_to_equations; lia).
    reflexivity. }
  rewrite decimal_loop_more by (Z.div_mod_to_equations; lia).
  rewrite Z.div_div by lia. change (100 * 10) with 1000.
  rewrite decimal_loop_last by (Z.div_mod_to_equations; lia).
  replace (n / 1000 mod 10) with (n / 1000) by (Z.div_mod_to_equations; lia).
  reflexivity.
Qed.

Lemma padStart_2 n :
  0 <= n <= 99 ->
  padStart n 2 = String (digit (n / 10)) (String (digit (n mod 10)) "").
Proof.
  intros H. unfold padStart. destruct (Z.ltb_spec n 0); [lia|].
  unfold decimal.
  destruct (Z_lt_le_dec n 10) as [C1|C1].
  { rewrite decimal_loop_last by lia.
    replace (n / 10) with 0 by (Z.div_mod_to_equations; lia).
    reflexivity. }
  destruct (decimal_fuel n C1) as [k ->].
  rewrite decimal_loop_more by lia.
  rewrite decimal_loop_last by (Z.div_mod_to_equations; lia).
  replace (n / 10 mod 10) with (n / 10) by (Z.div_mod_to_equations; lia).
  reflexivity.
Qed.


(** *** The order and the shape of printed dates *)

Lemma digit_compare (a b : Z) :
  0 <= a <= 9 -> 0 <= b <= 9 -> Ascii.compare (digit a) (digit b) = (a ?= b).
Proof.
  intros Ha Hb.
  assert (Ca : a = 0 \/ a = 1 \/ a = 2 \/ a = 3 \/ a = 4 \/ a = 5 \/ a = 6
              \/ a = 7 \/ a = 8 \/ a = 9) by lia.
  assert (Cb : b = 0 \/ b = 1 \/ b = 2 \/ b = 3 \/ b = 4 \/ b = 5 \/ b = 6
              \/ b = 7 \/ b = 8 \/ b = 9) by lia.
  repeat (destruct Ca as [Ca|Ca]); subst a; repeat (destruct Cb as [Cb|Cb]); subst b;
    reflexivity.
Qed.

(** Two numerals of equal length compare digit by digit as the numbers do. *)
Lemma two_digits (a b : Z) (r : comparison) :
  0 <= a <= 99 -> 0 <= b <= 99 ->
  match a / 10 ?= b / 10 with
  | Eq => match a mod 10 ?= b mod 10 with Eq => r | Lt => Lt | Gt => Gt end
  | Lt => Lt
  | Gt => Gt
  end
  = match a ?= b with Eq => r | Lt => Lt | Gt => Gt end.
Proof.
  intros Ha Hb.
  destruct (Z.compare_spec (a / 10) (b / 10)), (Z.compare_spec (a mod 10) (b mod 10)),
    (Z.compare_spec a b); try reflexivity; exfalso; Z.div_mod_to_equations; lia.
Qed.

Lemma four_digits (a b : Z) (r : comparison) :
  0 <= a <= 9999 -> 0 <= b <= 9999 ->
  match a / 1000 ?= b / 1000 with
  | Eq => match a / 100 mod 10 ?= b / 100 mod 10 with
          | Eq => match a / 10 mod 10 ?= b / 10 mod 10 with
                  | Eq => match a mod 10 ?= b mod 10 with Eq => r | Lt => Lt | Gt => Gt end
                  | Lt => Lt
                  | Gt => Gt
                  end
          | Lt => Lt
          | Gt => Gt
          end
  | Lt => Lt
  | Gt => Gt
  end
  = match a ?= b with Eq => r | Lt => Lt | Gt => Gt end.
Proof.
  intros Ha Hb.
  replace (a / 1000) with (a / 100 / 10) by (rewrite Z.div_div by lia; reflexivity).
  replace (b / 1000) with (b / 100 / 10) by (rewrite Z.div_div by lia; reflexivity).
  rewrite (two_digits (a / 100) (b / 100)) by (Z.div_mod_to_equations; lia).
  replace (a / 10 mod 10) with (a mod 100 / 10) by (Z.div_mod_to_equations; lia).
  replace (b / 10 mod 10) with (b mod 100 / 10) by (Z.div_mod_to_equations; lia).
  replace (a mod 10) with (a mod 100 mod 10) by (Z.div_mod_to_equations; lia).
  replace (b mod 10) with (b mod 100 mod 10) by (Z.div_mod_to_equations; lia).
  rewrite (two_digits (a mod 100) (b mod 100)) by (Z.div_mod_to_equations; lia).
  destruct (Z.compare_spec (a / 100) (b / 100)), (Z.compare_spec (a mod 100) (b mod 100)),
    (Z.compare_spec a b); try reflexivity; exfalso; Z.div_mod_to_equations; lia.
Qed.

(** Two dates written as yyyy-MM-dd compare as strings the way the dates
    compare: by year, then month, then day. *)
Lemma formatted_compare (y m d y' m' d' : Z) :
  0 <= y <= 9999 -> 0 <= m <= 99 -> 0 <= d <= 99 ->
  0 <= y' <= 9999 -> 0 <= m' <= 99 -> 0 <= d' <= 99 ->
  String.compare (padStart y 4 ++ "-" ++ padStart m 2 ++ "-" ++ padStart d 2)
                 (padStart y' 4 ++ "-" ++ padStart m' 2 ++ "-" ++ padStart d' 2)
  = match y ?= y' with
    | Eq => match m ?= m' with Eq => d ?= d' | c => c end
    | c => c
    end.
Proof.
  intros Hy Hm Hd Hy' Hm' Hd'.
  rewrite !padStart_4, !padStart_2 by lia.
  cbn [append String.compare].
  rewrite !digit_compare by (Z.div_mod_to_equations; lia).
  change (Ascii.compare "-" "-") with Eq. cbv iota.
  rewrite (two_digits d d' Eq Hd Hd').
  rewrite (two_digits m m' _ Hm Hm').
  rewrite (four_digits y y' _ Hy Hy').
  destruct (y ?= y'), (m ?= m'), (d ?= d'); reflexivity.
Qed.

(** A date written as yyyy-MM-dd has the ten-character shape and reads back
    as the same date. *)
Lemma formatted_parse (y m d : Z) :
  0 <= y <= 9999 -> 0 <= m <= 99 -> 0 <= d <= 99 ->
  let s := padStart y 4 ++ "-" ++ padStart m 2 ++ "-" ++ padStart d 2 in
  is_yyyy_MM_dd s = true /\ String.length s = 10%nat /\ parse_yyyy_MM_dd s = (y, m, d).
Proof.
  intros Hy Hm Hd s. subst s.
  rewrite padStart_4 by lia. rewrite !padStart_2 by lia.
  cbn [append]. unfold parse_yyyy_MM_dd, numeral.
  cbn [substring numeral_loop is_yyyy_MM_dd String.length].
  repeat match goal with
         | |- context [digit ?d] =>
             lazymatch goal with
             | _ : is_digit (digit d) = true |- _ => fail
             | _ => let H := fresh "D" in
                    assert (H : 0 <= d <= 9) by (Z.div_mod_to_equations; lia);
                    apply digit_spec in H; destruct H as [? ?]
             end
         end.
  repeat match goal with H : is_digit _ = true |- _ => rewrite H; clear H end.
  repeat match goal with H : Z.of_nat (nat_of_ascii _) = _ |- _ => rewrite H; clear H end.
  cbn [andb Ascii.eqb Bool.eqb].
  split; [reflexivity|]. split; [reflexivity|].
  f_equal; [f_equal|]; Z.div_mod_to_equations; lia.
Qed.

(** The decimal numeral of a non-negative integer: digits only, and more of
    them than [k] when the integer is at least [10 ^ k]. *)
Lemma all_digits_app (s1 s2 : string) :
  all_digits (s1 ++ s2) = all_digits s1 && all_digits s2.
Proof.
  induction s1 as [|c s1 IH]; [reflexivity|].
  cbn [append all_digits]. rewrite IH. apply andb_assoc.
Qed.

Lemma string_length_app (s1 s2 : string) :
  String.length (s1 ++ s2) = (String.length s1 + String.length s2)%nat.
Proof. induction s1 as [|c s1 IH]; cbn; [reflexivity|]. rewrite IH. reflexivity. Qed.

Lemma string_app_assoc (s1 s2 s3 : string) : (s1 ++ s2) ++ s3 = s1 ++ (s2 ++ s3).
Proof. induction s1 as [|c s1 IH]; cbn; [reflexivity|]. rewrite IH. reflexivity. Qed.

Lemma decimal_loop_digits (fuel : nat) :
  forall (n : Z) (acc : string),
    0 <= n < 2 ^ Z.of_nat fuel ->
    exists s, decimal_loop fuel n acc = s ++ acc
              /\ all_digits s = true
              /\ n < 10 ^ Z.of_nat (String.length s).
Proof.
  induction fuel as [|fuel IH]; intros n acc Hn.
  { exists "". cbn in *. repeat split. lia. }
  destruct (Z_lt_le_dec n 10) as [C|C].
  - rewrite decimal_loop_last by assumption.
    exists (String (digit (n mod 10)) ""). split; [reflexivity|].
    cbn [all_digits String.length].
    destruct (digit_spec (n mod 10) ltac:(Z.div_mod_to_equations; lia)) as [-> _].
    split; [reflexivity|]. change (10 ^ Z.of_nat 1) with 10. lia.
  - rewrite decimal_loop_more by assumption.
    assert (Hn' : 0 <= n / 10 < 2 ^ Z.of_nat fuel).
    { rewrite Nat2Z.inj_succ, Z.pow_succ_r in Hn by lia.
      Z.div_mod_to_equations. lia. }
    destruct (IH (n / 10) (String (digit (n mod 10)) acc) Hn') as (s & E & A & B).
    exists (s ++ String (digit (n mod 10)) ""). rewrite string_app_assoc. split; [exact E|].
    rewrite all_digits_app, A. cbn [all_digits].
    destruct (digit_spec (n mod 10) ltac:(Z.div_mod_to_equations; lia)) as [-> _].
    split; [reflexivity|].
    rewrite string_length_app. cbn [String.length].
    replace (Z.of_nat (String.length s + 1)) with (Z.succ (Z.of_nat (String.length s))) by lia.
    rewrite Z.pow_succ_r by lia.
    Z.div_mod_to_equations. lia.
Qed.

Lemma decimal_digits (n : Z) :
  0 <= n ->
  all_digits (decimal n) = true /\ n < 10 ^ Z.of_nat (String.length (decimal n)).
Proof.
  intros Hn. unfold decimal.
  destruct (decimal_loop_digits (S (Z.to_nat (Z.log2 n))) n "") as (s & E & A & B).
  { split; [assumption|].
    destruct (Z.eq_dec n 0) as [->|N]; [cbn; lia|].
    rewrite Nat2Z.inj_succ, Z2Nat.id by apply Z.log2_nonneg.
    apply Z.log2_spec. lia. }
  rewrite E. clear E.
  assert (Es : s ++ "" = s).
  { clear. induction s as [|c s IH]; cbn; [reflexivity|]. rewrite IH. reflexivity. }
  rewrite Es. split; assumption.
Qed.

(** What [is_yyyy_MM_dd] accepts starts with a digit and has a hyphen in
    the fifth place. *)
Lemma is_yyyy_MM_dd_inv (s : string) :
  is_yyyy_MM_dd s = true ->
  exists c1 c2 c3 c4 rest,
    s = String c1 (String c2 (String c3 (String c4 (String "-" rest))))
    /\ is_digit c1 = true.
Proof.
  destruct s as [|c1 [|c2 [|c3 [|c4 [|c5 rest]]]]]; try discriminate.
  intros H. exists c1, c2, c3, c4, rest.
  destruct rest as [|c6 [|c7 [|c8 [|c9 [|c10 [|c11 rest]]]]]]; try discriminate.
  cbn [is_yyyy_MM_dd] in H.
  repeat (apply andb_prop in H; destruct H as [H ?]).
  split; [|unfold is_digit; apply andb_true_intro; split; assumption].
  repeat f_equal.
  match goal with E : Ascii.eqb c5 _ = true |- _ => apply Ascii.eqb_eq in E; exact E end.
Qed.

Lemma digit_not_hyphen (c : ascii) : is_digit c = true -> c <> "-"%char.
Proof. intros H E. subst c. discriminate. Qed.

(** *** Numerals of any length *)

Lemma numeral_loop_app (s1 s2 : string) (a : Z) :
  numeral_loop (s1 ++ s2) a = numeral_loop s2 (numeral_loop s1 a).
Proof.
  revert a. induction s1 as [|c s1 IH]; intros a; cbn [append numeral_loop];
    [reflexivity|apply IH].
Qed.

(** The decimal numeral of a non-negative integer consists of digits, has
    more than [k] of them when the integer is at least [10 ^ k], and reads
    back as the integer. *)
Lemma decimal_loop_numeral (fuel : nat) :
  forall (n : Z) (acc : string),
    0 <= n < 2 ^ Z.of_nat fuel ->
    exists s, decimal_loop fuel n acc = s ++ acc
              /\ all_digits s = true
              /\ n < 10 ^ Z.of_nat (String.length s)
              /\ forall a, numeral_loop s a = a * 10 ^ Z.of_nat (String.length s) + n.
Proof.
  induction fuel as [|fuel IH]; intros n acc Hn.
  { exists "". cbn in *. repeat split; intros; lia. }
  destruct (Z_lt_le_dec n 10) as [C|C].
  - rewrite decimal_loop_last by assumption.
    exists (String (digit (n mod 10)) ""). split; [reflexivity|].
    cbn [all_digits String.length numeral_loop].
    destruct (digit_spec (n mod 10) ltac:(Z.div_mod_to_equations; lia)) as [-> ->].
    change (10 ^ Z.of_nat 1) with 10.
    split; [reflexivity|]. split; [lia|]. intros a. Z.div_mod_to_equations. lia.
  - rewrite decimal_loop_more by assumption.
    assert (Hn' : 0 <= n / 10 < 2 ^ Z.of_nat fuel).
    { rewrite Nat2Z.inj_succ, Z.pow_succ_r in Hn by lia.
      Z.div_mod_to_equations. lia. }
    destruct (IH (n / 10) (String (digit (n mod 10)) acc) Hn') as (s & E & A & B & N).
    exists (s ++ String (digit (n mod 10)) ""). rewrite string_app_assoc. split; [exact E|].
    rewrite all_digits_app, A. cbn [all_digits].
    destruct (digit_spec (n mod 10) ltac:(Z.div_mod_to_equations; lia)) as [D1 D2].
    rewrite D1. split; [reflexivity|].
    rewrite string_length_app. cbn [String.length].
    replace (Z.of_nat (String.length s + 1)) with (Z.succ (Z.of_nat (String.length s))) by lia.
    rewrite Z.pow_succ_r by lia.
    split; [Z.div_mod_to_equations; lia|].
    intros a. rewrite numeral_loop_app, N. cbn [numeral_loop]. rewrite D2.
    set (P := 10 ^ Z.of_nat (String.length s)).
    replace (a * (10 * P)) with (10 * (a * P)) by ring.
    Z.div_mod_to_equations. lia.
Qed.

Lemma decimal_numeral (n : Z) :
  0 <= n ->
  all_digits (decimal n) = true
  /\ n < 10 ^ Z.of_nat (String.length (decimal n))
  /\ numeral (decimal n) = n.
Proof.
  intros Hn. unfold decimal, numeral.
  destruct (decimal_loop_numeral (S (Z.to_nat (Z.log2 n))) n "") as (s & E & A & B & N).
  { split; [assumption|].
    destruct (Z.eq_dec n 0) as [->|N]; [cbn; lia|].
    rewrite Nat2Z.inj_succ, Z2Nat.id by apply Z.log2_nonneg.
    apply Z.log2_spec. lia. }
  rewrite E. clear E.
  assert (Es : s ++ "" = s).
  { clear. induction s as [|c s IH]; cbn; [reflexivity|]. rewrite IH. reflexivity. }
  rewrite Es, N. repeat split; (assumption || lia).
Qed.

(** Zeros in front are digits and do not change what a numeral reads as. *)
Lemma zeros_numeral (k : nat) (s : string) :
  all_digits (zeros k ++ s) = all_digits s
  /\ String.length (zeros k ++ s) = (k + String.length s)%nat
  /\ numeral (zeros k ++ s) = numeral s.
Proof.
  unfold numeral. induction k as [|k (IH1 & IH2 & IH3)]; [repeat split|].
  cbn [zeros append all_digits String.length numeral_loop].
  rewrite IH1, IH2. repeat split. exact IH3.
Qed.

(** Neither a minus sign in front nor a year of more than four digits has
    the shape that [is_yyyy_MM_dd] accepts. *)
Lemma shape_not_minus (rest : string) : is_yyyy_MM_dd (String "-" rest) = false.
Proof.
  destruct (is_yyyy_MM_dd (String "-" rest)) eqn:E; [exfalso|reflexivity].
  apply is_yyyy_MM_dd_inv in E. destruct E as (c1 & c2 & c3 & c4 & r & E & D).
  injection E as E _. subst c1. discriminate.
Qed.

Lemma shape_not_long (year rest : string) :
  all_digits year = true -> (4 < String.length year)%nat ->
  is_yyyy_MM_dd (year ++ rest) = false.
Proof.
  intros A L.
  destruct (is_yyyy_MM_dd (year ++ rest)) eqn:E; [exfalso|reflexivity].
  apply is_yyyy_MM_dd_inv in E. destruct E as (c1 & c2 & c3 & c4 & r & E & D).
  destruct year as [|d1 [|d2 [|d3 [|d4 [|d5 ds]]]]]; cbn [String.length] in L; try lia.
  cbn [append] in E. injection E as _ _ _ _ E5 _.
  cbn [all_digits] in A.
  repeat (apply andb_prop in A; destruct A as [? A]).
  apply (digit_not_hyphen d5); assumption.
Qed.

End LuxonFacts.

(** ** The date filter *)

Section DateFilter.
Import JSDate Luxon JSDateFacts LuxonFacts.

Lemma localTime_fixed p ts o : localTime p ts (FixedOffsetZone o) = ts + o * 60 * 1000.
Proof. reflexivity. Qed.

(** The filter on a valid date: the three fields of the UTC time, joined by
    hyphens. *)
Lemma readableDate_fields p t :
  readableDate p (TimeValue t) =
  padStart (YearFromTime t) 4 ++ "-" ++ padStart (MonthFromTime t + 1) 2
    ++ "-" ++ padStart (DateFromTime t) 2.
Proof.
  unfold readableDate, fromJSDate.
  cbn -[padStart YearFromTime MonthFromTime DateFromTime Z.add Z.mul].
  unfold year, month, day. rewrite localTime_fixed.
  replace (t + 0 * 60 * 1000) with t by lia. reflexivity.
Qed.

Lemma year_range t :
  -62167219200000 <= t < 253402300800000 <-> 0 <= YearFromTime t <= 9999.
Proof.
  pose proof (YearFromTime_largest t 0) as H0.
  pose proof (YearFromTime_largest t 10000) as H1.
  change (TimeFromYear 0) with (-62167219200000) in H0.
  change (TimeFromYear 10000) with 253402300800000 in H1.
  lia.
Qed.

(** The month and the day of the month have at most two digits. *)
Lemma fields_range (t : Z) :
  0 <= MonthFromTime t + 1 <= 99 /\ 0 <= DateFromTime t <= 99.
Proof.
  pose proof (calendar_fields t) as (Hm & Hd & _).
  pose proof (InLeapYear_spec t) as [_ L].
  split; [lia|].
  revert Hd Hm. generalize (MonthFromTime t) (InLeapYear t) L. intros m l Hl Hd Hm.
  assert (C : m = 0 \/ m = 1 \/ m = 2 \/ m = 3 \/ m = 4 \/ m = 5 \/ m = 6
              \/ m = 7 \/ m = 8 \/ m = 9 \/ m = 10 \/ m = 11) by lia.
  repeat (destruct C as [C|C]); subst m; cbn [daysInMonth] in Hd; lia.
Qed.

Ltac digit_facts :=
  repeat match goal with
         | |- context [digit ?d] =>
             lazymatch goal with
             | _ : is_digit (digit d) = true |- _ => fail
             | _ => let H := fresh "D" in
                    assert (H : 0 <= d <= 9) by (Z.div_mod_to_equations; lia);
                    apply digit_spec in H; destruct H as [? ?]
             end
         end.

(** C5 (amended): for a valid date whose instant lies in the years 0000 to
    9999 of the UTC calendar, the filter returns a ten-character string of
    the shape yyyy-MM-dd, and the date it names is the UTC day that contains
    the instant, whatever the time zone of the process.  A later year is
    printed with more than four digits (the digits of the year, so the string
    is longer), an earlier one with a minus sign in front of the digits of
    its absolute value, and an invalid date as [Invalid DateTime]; none of
    these has the ten-character shape. *)
Theorem readableDate_utc_date (p : Process) :
  (forall t : Z,
      -62167219200000 <= t < 253402300800000 ->
      let s := readableDate p (TimeValue t) in
      is_yyyy_MM_dd s = true
      /\ String.length s = 10%nat
      /\ (let '(y, m, d) := parse_yyyy_MM_dd s in
          0 <= y <= 9999 /\ 1 <= m <= 12
          /\ 1 <= d <= daysInMonth (if DaysInYear y =? 366 then 1 else 0) (m - 1)
          /\ MakeDay y (m - 1) d = Day t))
  /\ (forall t : Z,
      253402300800000 <= t ->
      let s := readableDate p (TimeValue t) in
      exists year,
        s = year ++ "-" ++ padStart (MonthFromTime t + 1) 2
              ++ "-" ++ padStart (DateFromTime t) 2
        /\ all_digits year = true /\ (4 < String.length year)%nat
        /\ numeral year = YearFromTime t /\ 10000 <= YearFromTime t
        /\ (10 < String.length s)%nat /\ is_yyyy_MM_dd s = false)
  /\ (forall t : Z,
      t < -62167219200000 ->
      let s := readableDate p (TimeValue t) in
      exists digits,
        s = String "-" (digits ++ "-" ++ padStart (MonthFromTime t + 1) 2
                          ++ "-" ++ padStart (DateFromTime t) 2)
        /\ all_digits digits = true /\ (4 <= String.length digits)%nat
        /\ numeral digits = - YearFromTime t /\ YearFromTime t < 0
        /\ (10 < String.length s)%nat /\ is_yyyy_MM_dd s = false)
  /\ (readableDate p InvalidDate = "Invalid DateTime"
      /\ is_yyyy_MM_dd (readableDate p InvalidDate) = false).
Proof.
  split; [|split; [|split; [|split; reflexivity]]].
  - intros t Ht s. subst s. rewrite readableDate_fields.
    apply year_range in Ht.
    pose proof (calendar_fields t) as (Hm & Hd & Hday).
    pose proof Hday as Hday0.
    assert (Hd' : 1 <= DateFromTime t <= 31).
    { pose proof (InLeapYear_spec t) as [_ L].
      revert Hd Hm. generalize (MonthFromTime t) (InLeapYear t) L. intros m l Hl Hd Hm.
      assert (C : m = 0 \/ m = 1 \/ m = 2 \/ m = 3 \/ m = 4 \/ m = 5 \/ m = 6
                  \/ m = 7 \/ m = 8 \/ m = 9 \/ m = 10 \/ m = 11) by lia.
      repeat (destruct C as [C|C]); subst m; cbn [daysInMonth] in Hd; lia. }
    rewrite padStart_4 by lia. rewrite !padStart_2 by lia.
    set (y := YearFromTime t) in *. set (m := MonthFromTime t) in *.
    set (d := DateFromTime t) in *.
    cbn [append]. unfold parse_yyyy_MM_dd, numeral.
    cbn [substring numeral_loop is_yyyy_MM_dd String.length].
    change (InLeapYear t) with (if DaysInYear y =? 366 then 1 else 0) in Hd.
    clearbody y m d. clear Hday0.
    digit_facts.
    repeat match goal with H : is_digit _ = true |- _ => rewrite H; clear H end.
    repeat match goal with H : Z.of_nat (nat_of_ascii _) = _ |- _ => rewrite H; clear H end.
    cbn [andb Ascii.eqb Bool.eqb].
    split; [reflexivity|]. split; [reflexivity|].
    replace (10 * (10 * (10 * (10 * 0 + (48 + y / 1000) - 48) + (48 + y / 100 mod 10) - 48)
                   + (48 + y / 10 mod 10) - 48) + (48 + y mod 10) - 48)
      with y by (Z.div_mod_to_equations; lia).
    replace (10 * (10 * 0 + (48 + (m + 1) / 10) - 48) + (48 + (m + 1) mod 10) - 48)
      with (m + 1) by (Z.div_mod_to_equations; lia).
    replace (10 * (10 * 0 + (48 + d / 10) - 48) + (48 + d mod 10) - 48)
      with d by (Z.div_mod_to_equations; lia).
    replace (m + 1 - 1) with m by lia.
    repeat split; (assumption || lia).
  - intros t Ht s. subst s. rewrite readableDate_fields.
    assert (Hy : 10000 <= YearFromTime t).
    { apply YearFromTime_largest. change (TimeFromYear 10000) with 253402300800000. lia. }
    destruct (fields_range t) as [M D].
    set (y := YearFromTime t) in *.
    destruct (decimal_numeral y ltac:(lia)) as (A & B & N).
    assert (L : (4 < String.length (decimal y))%nat).
    { destruct (Nat.lt_ge_cases 4 (String.length (decimal y))) as [|S]; [assumption|exfalso].
      assert (10 ^ Z.of_nat (String.length (decimal y)) <= 10 ^ 4)
        by (apply Z.pow_le_mono_r; lia).
      change (10 ^ 4) with 10000 in *. lia. }
    assert (E : padStart y 4 = decimal y).
    { unfold padStart. destruct (Z.ltb_spec y 0); [lia|].
      replace (4 - String.length (decimal y))%nat with 0%nat by lia. reflexivity. }
    rewrite E. exists (decimal y).
    split; [reflexivity|]. split; [exact A|]. split; [exact L|].
    split; [exact N|]. split; [exact Hy|]. split; [|apply shape_not_long; assumption].
    rewrite string_length_app, !padStart_2 by assumption. cbn [append String.length]. lia.
  - intros t Ht s. subst s. rewrite readableDate_fields.
    assert (Hy : YearFromTime t < 0).
    { destruct (Z_lt_le_dec (YearFromTime t) 0) as [|C]; [assumption|exfalso].
      apply YearFromTime_largest in C.
      change (TimeFromYear 0) with (-62167219200000) in C. lia. }
    destruct (fields_range t) as [M D].
    set (y := YearFromTime t) in *.
    destruct (decimal_numeral (- y) ltac:(lia)) as (A & B & N).
    destruct (zeros_numeral (4 - String.length (decimal (- y))) (decimal (- y)))
      as (Z1 & Z2 & Z3).
    assert (E : padStart y 4
                = String "-" (zeros (4 - String.length (decimal (- y))) ++ decimal (- y))).
    { unfold padStart. destruct (Z.ltb_spec y 0); [reflexivity|lia]. }
    rewrite E. cbn [append].
    exists (zeros (4 - String.length (decimal (- y))) ++ decimal (- y)).
    split; [reflexivity|]. split; [rewrite Z1; exact A|]. split; [lia|].
    split; [rewrite Z3; exact N|]. split; [exact Hy|]. split; [|apply shape_not_minus].
    cbn [String.length]. rewrite string_length_app, Z2, !padStart_2 by assumption.
    cbn [append String.length]. lia.
Qed.

(** C5, as stated, fails on the first instant of the year 10000: the year is
    printed with five digits, so the string has eleven characters. *)
Lemma readableDate_year_10000 :
  let s := readableDate {| localOffset := fun _ => 0 |} (TimeValue 253402300800000) in
  s = "10000-01-01" /\ String.length s = 11%nat /\ is_yyyy_MM_dd s = false.
Proof. vm_compute. repeat split. Qed.

Lemma readableDate_utc_date_witness :
  -62167219200000 <= 1736899200000 < 253402300800000
  /\ is_yyyy_MM_dd (readableDate {| localOffset := fun _ => 120 |}
                      (TimeValue 1736899200000)) = true.
Proof.
  split; [lia|].
  apply (proj1 (readableDate_utc_date {| localOffset := fun _ => 120 |}) 1736899200000). lia.
Defined.

(** An invalid date is printed as such. *)
Lemma readableDate_invalid (p : Process) :
  readableDate p InvalidDate = "Invalid DateTime".
Proof. reflexivity. Qed.

(** C6: the filter is a function of the instant alone: two calls on the same
    date give the same string, in whatever time zones the two processes
    run. *)
Theorem readableDate_timezone_insensitive (p1 p2 : Process) (dateObj : Date) :
  readableDate p1 dateObj = readableDate p2 dateObj.
Proof.
  destruct dateObj as [|t]; [reflexivity|].
  rewrite !readableDate_fields. reflexivity.
Qed.

(** Without the [zone] option the same format does depend on the process. *)
Lemma toFormat_system_zone_depends :
  toFormat {| localOffset := fun _ => 0 |} (fromJSDate (TimeValue 0) None) "yyyy-MM-dd"
  <> toFormat {| localOffset := fun _ => -60 |} (fromJSDate (TimeValue 0) None) "yyyy-MM-dd".
Proof. vm_compute. discriminate. Qed.

(** *** Order, round trip and shape *)

(** The strings the filter prints sort as the days they name: for two valid
    dates in the years 0000 to 9999, comparing the two strings character by
    character gives the comparison of the two UTC days.  So two dates get the
    same string exactly when they fall on the same UTC day, and a date that
    is not later never gets a string that sorts after. *)
Theorem readableDate_orders_as_days (p1 p2 : Process) (t1 t2 : Z) :
  -62167219200000 <= t1 < 253402300800000 ->
  -62167219200000 <= t2 < 253402300800000 ->
  let s1 := readableDate p1 (TimeValue t1) in
  let s2 := readableDate p2 (TimeValue t2) in
  String.compare s1 s2 = (Day t1 ?= Day t2)
  /\ (s1 = s2 <-> Day t1 = Day t2)
  /\ (t1 <= t2 -> String.leb s1 s2 = true).
Proof.
  intros H1 H2 s1 s2.
  assert (C : String.compare s1 s2 = (Day t1 ?= Day t2)).
  { subst s1 s2. rewrite !readableDate_fields.
    apply year_range in H1, H2.
    destruct (fields_range t1) as [M1 D1]. destruct (fields_range t2) as [M2 D2].
    rewrite formatted_compare by assumption.
    symmetry. apply calendar_order. }
  split; [exact C|]. split; [split|].
  - intros E. apply Z.compare_eq_iff. rewrite <- C, E.
    pose proof (String.compare_antisym s2 s2) as A.
    destruct (String.compare s2 s2); (reflexivity || discriminate).
  - intros E. apply String.compare_eq_iff. rewrite C, E. apply Z.compare_refl.
  - intros L. unfold String.leb. rewrite C.
    assert (D : Day t1 <= Day t2) by (unfold Day, msPerDay; apply Z.div_le_mono; lia).
    destruct (Z.compare_spec (Day t1) (Day t2)); try reflexivity. lia.
Qed.

Lemma readableDate_orders_as_days_witness :
  let s1 := readableDate {| localOffset := fun _ => 0 |} (TimeValue 1736899200000) in
  let s2 := readableDate {| localOffset := fun _ => 540 |} (TimeValue 1761350400000) in
  (-62167219200000 <= 1736899200000 < 253402300800000
   /\ -62167219200000 <= 1761350400000 < 253402300800000)
  /\ String.compare s1 s2 = (Day 1736899200000 ?= Day 1761350400000).
Proof.
  split; [lia|].
  apply (readableDate_orders_as_days {| localOffset := fun _ => 0 |}
           {| localOffset := fun _ => 540 |} 1736899200000 1761350400000); lia.
Defined.

(** Round trip from a calendar date (as the [date] of a post's front matter,
    read as midnight UTC): for a date [y]-[m]-[d] of the calendar with a year
    from 0 to 9999, the filter prints every instant of that UTC day as
    the year, month and day padded to four, two and two digits, and the
    string reads back as [(y, m, d)]. *)
Theorem readableDate_of_calendar_date (p : Process) (y m d ms : Z) :
  0 <= y <= 9999 -> 1 <= m <= 12 ->
  1 <= d <= daysInMonth (if DaysInYear y =? 366 then 1 else 0) (m - 1) ->
  0 <= ms < msPerDay ->
  let s := readableDate p (TimeValue (MakeDay y (m - 1) d * msPerDay + ms)) in
  s = padStart y 4 ++ "-" ++ padStart m 2 ++ "-" ++ padStart d 2
  /\ parse_yyyy_MM_dd s = (y, m, d).
Proof.
  intros Hy Hm Hd Hms s.
  set (t := MakeDay y (m - 1) d * msPerDay + ms) in *.
  assert (E : Day t = MakeDay y (m - 1) d).
  { unfold t, Day. unfold msPerDay in *. Z.div_mod_to_equations. lia. }
  destruct (fields_of_MakeDay y (m - 1) d t ltac:(lia) Hd E) as (EY & EM & ED).
  assert (Es : s = padStart y 4 ++ "-" ++ padStart m 2 ++ "-" ++ padStart d 2).
  { subst s. rewrite readableDate_fields, EY, EM, ED.
    replace (m - 1 + 1) with m by lia. reflexivity. }
  split; [exact Es|]. rewrite Es.
  assert (Hd' : 0 <= d <= 99).
  { destruct (fields_range t) as [_ R]. rewrite ED in R. exact R. }
  apply (formatted_parse y m d); lia.
Qed.

Lemma readableDate_of_calendar_date_witness :
  (1 <= 29 <= daysInMonth (if DaysInYear 2024 =? 366 then 1 else 0) (2 - 1)
   /\ 0 <= 86399999 < msPerDay)
  /\ parse_yyyy_MM_dd
       (readableDate {| localOffset := fun _ => -480 |}
          (TimeValue (MakeDay 2024 (2 - 1) 29 * msPerDay + 86399999)))
     = (2024, 2, 29).
Proof.
  split; [split; [cbn; lia|unfold msPerDay; lia]|].
  apply (readableDate_of_calendar_date {| localOffset := fun _ => -480 |} 2024 2 29 86399999);
    try lia; [cbn; lia|unfold msPerDay; lia].
Defined.

(** The filter returns a string of the shape dddd-dd-dd exactly for the valid
    dates of the years 0000 to 9999: an invalid date, a date before the year
    0 and a date after the year 9999 all give a string of another shape. *)
Theorem readableDate_well_formed_iff (p : Process) (dateObj : Date) :
  is_yyyy_MM_dd (readableDate p dateObj) = true
  <-> exists t, dateObj = TimeValue t /\ -62167219200000 <= t < 253402300800000.
Proof.
  split.
  - destruct dateObj as [|t]; [discriminate|]. intros H. exists t. split; [reflexivity|].
    apply year_range.
    rewrite readableDate_fields in H.
    apply is_yyyy_MM_dd_inv in H. destruct H as (c1 & c2 & c3 & c4 & rest & E & D1).
    set (y := YearFromTime t) in *. clearbody y.
    destruct (Z_lt_le_dec y 0) as [N|N]; [exfalso|].
    { unfold padStart in E. destruct (Z.ltb_spec y 0); [|lia].
      cbn [append] in E. injection E as E _. subst c1. discriminate. }
    split; [assumption|].
    destruct (Z_le_gt_dec y 9999) as [|G]; [assumption|exfalso].
    destruct (decimal_digits y N) as [A B].
    unfold padStart in E. destruct (Z.ltb_spec y 0); [lia|].
    assert (L : (5 <= String.length (decimal y))%nat).
    { destruct (Nat.le_gt_cases 5 (String.length (decimal y))) as [|S]; [assumption|exfalso].
      assert (10 ^ Z.of_nat (String.length (decimal y)) <= 10 ^ 4)
        by (apply Z.pow_le_mono_r; lia).
      change (10 ^ 4) with 10000 in *. lia. }
    replace (4 - String.length (decimal y))%nat with 0%nat in E by lia.
    cbn [zeros append] in E.
    destruct (decimal y) as [|d1 [|d2 [|d3 [|d4 [|d5 ds]]]]]; cbn [String.length] in L; try lia.
    cbn [append] in E. injection E as _ _ _ _ E5 _.
    cbn [all_digits] in A.
    repeat (apply andb_prop in A; destruct A as [? A]).
    apply (digit_not_hyphen d5); assumption.
  - intros (t & -> & Ht). rewrite readableDate_fields.
    apply year_range in Ht. destruct (fields_range t) as [M D].
    apply (formatted_parse (YearFromTime t) (MonthFromTime t + 1) (DateFromTime t)); assumption.
Qed.

End DateFilter.

(** ** The random filter *)

(** C7: [Math.random] returns a number of the unit interval; for every such
    number and every non-empty array (of fewer than [2 ^ 32] elements, as
    every array) the filter returns an element of the array, the one at the
    floor of the number scaled by the length.  That index is the integer part
    of the exact product up to [2 ^ -20], so the numbers that select a given
    element fill an interval of width [1 / length] (up to [2 ^ -19 / length]):
    a number drawn uniformly selects the elements with equal probability, to
    that precision. *)
Theorem random_returns_member {A : Type} (Math_random : float) (array : list A) :
  (0 <=? Math_random)%float = true -> (Math_random <? 1)%float = true ->
  array <> [] -> Z.of_nat (List.length array) < 2 ^ 32 ->
  let scaled := (JS.value Math_random * inject_Z (Z.of_nat (List.length array)))%Q in
  (exists (i : nat) (x : A),
      (i < List.length array)%nat
      /\ JS.array_index (Prim2SF (JS.Math_floor (Math_random * JS.length_of array)%float))
         = Some (Z.of_nat i)
      /\ nth_error array i = Some x
      /\ random Math_random array = Some x
      /\ In x array
      /\ (inject_Z (Z.of_nat i) - (1 # 1048576) <= scaled)%Q
      /\ (scaled < inject_Z (Z.of_nat i) + 1 + (1 # 1048576))%Q)
  /\ (forall j : nat,
         (j < List.length array)%nat ->
         (inject_Z (Z.of_nat j) + (1 # 1048576) <= scaled)%Q ->
         (scaled < inject_Z (Z.of_nat j) + 1 - (1 # 1048576))%Q ->
         random Math_random array = nth_error array j).
Proof.
  intros H0 H1 Hne Hlen scaled.
  assert (HN : 0 < Z.of_nat (List.length array) < 2 ^ 32).
  { split; [|assumption]. destruct array; [contradiction|cbn [List.length]; lia]. }
  destruct (B64.scaled_index_bucket Math_random _ (JS.length_of array) H0 H1 HN
              (B64.Prim2SF_length_of array Hlen)) as (q & Hq & Eq & BL & BU).
  fold scaled in BL, BU.
  assert (R : random Math_random array = nth_error array (Z.to_nat q)).
  { unfold random, JS.get. rewrite Eq. reflexivity. }
  split.
  - assert (Hi : (Z.to_nat q < List.length array)%nat) by lia.
    destruct (nth_error array (Z.to_nat q)) as [x|] eqn:Ex;
      [|apply nth_error_None in Ex; lia].
    exists (Z.to_nat q), x. rewrite Z2Nat.id by lia.
    repeat split; try assumption.
    eapply nth_error_In. exact Ex.
  - intros j Hj JL JU. rewrite R. f_equal.
    assert (L1 : (inject_Z q < inject_Z (Z.of_nat j + 1))%Q).
    { rewrite inject_Z_plus. change (inject_Z 1) with 1%Q. lra. }
    assert (L2 : (inject_Z (Z.of_nat j) < inject_Z (q + 1))%Q).
    { rewrite inject_Z_plus. change (inject_Z 1) with 1%Q. lra. }
    rewrite <- Zlt_Qlt in L1, L2. lia.
Qed.

Lemma random_returns_member_witness :
  ((0 <=? 0.5)%float = true /\ (0.5 <? 1)%float = true)
  /\ exists i x, (i < 5)%nat
       /\ JS.array_index (Prim2SF (JS.Math_floor (0.5 * JS.length_of ["a"; "b"; "c"; "d"; "e"])%float))
          = Some (Z.of_nat i)
       /\ nth_error ["a"; "b"; "c"; "d"; "e"] i = Some x
       /\ random 0.5 ["a"; "b"; "c"; "d"; "e"] = Some x
       /\ In x ["a"; "b"; "c"; "d"; "e"]
       /\ (inject_Z (Z.of_nat i) - (1 # 1048576) <= JS.value 0.5 * inject_Z 5)%Q
       /\ (JS.value 0.5 * inject_Z 5 < inject_Z (Z.of_nat i) + 1 + (1 # 1048576))%Q.
Proof.
  split; [split; reflexivity|].
  apply (random_returns_member 0.5 ["a"; "b"; "c"; "d"; "e"]);
    [reflexivity|reflexivity|discriminate|cbn; lia].
Defined.

(** C8: on an empty array the filter returns no element: whatever number
    [Math.random] returns, the result is [undefined]. *)
Theorem random_empty {A : Type} (Math_random : float) :
  random Math_random (@nil A) = None.
Proof.
  unfold random, JS.get.
  destruct (JS.array_index _) as [i|]; [|reflexivity].
  destruct (Z.to_nat i); reflexivity.
Qed.

(** *** One element, and every element *)

(** An array of one element: the filter returns that element, whatever
    number of the unit interval [Math.random] returns. *)
Theorem random_singleton {A : Type} (Math_random : float) (x : A) :
  (0 <=? Math_random)%float = true -> (Math_random <? 1)%float = true ->
  random Math_random [x] = Some x.
Proof.
  intros H0 H1.
  destruct (B64.scaled_index_bucket Math_random 1 (JS.length_of [x]) H0 H1 ltac:(lia)
              (B64.Prim2SF_length_of [x] ltac:(cbn; lia))) as (q & Hq & Eq & _).
  unfold random, JS.get. rewrite Eq. replace q with 0 by lia. reflexivity.
Qed.

Lemma random_singleton_witness :
  ((0 <=? 0.75)%float = true /\ (0.75 <? 1)%float = true)
  /\ random 0.75 ["only"] = Some "only".
Proof.
  split; [split; reflexivity|].
  apply (random_singleton 0.75 "only"); reflexivity.
Defined.

(** No element is out of reach: for every index [j] of the array, the
    number [(2 j + 1) / (2 length)], the middle of the [j]-th part of the unit
    interval, is a number [Math.random] may return, and on it the filter
    returns the element at [j]. *)
Theorem random_reaches_every_element {A : Type} (array : list A) (j : nat) :
  (j < List.length array)%nat -> Z.of_nat (List.length array) < 2 ^ 32 ->
  let r := (JS.of_int (2 * Z.of_nat j + 1)
            / JS.of_int (2 * Z.of_nat (List.length array)))%float in
  (0 <=? r)%float = true /\ (r <? 1)%float = true
  /\ exists x, nth_error array j = Some x /\ random r array = Some x.
Proof.
  intros Hj Hlen r.
  destruct (B64.midpoint_index (Z.of_nat j) (Z.of_nat (List.length array))
              (JS.length_of array) ltac:(lia) Hlen (B64.Prim2SF_length_of array Hlen))
    as (R0 & R1 & Eq).
  fold r in R0, R1, Eq.
  split; [exact R0|]. split; [exact R1|].
  destruct (nth_error array j) as [x|] eqn:Ex; [|apply nth_error_None in Ex; lia].
  exists x. split; [reflexivity|].
  unfold random, JS.get. rewrite Eq, Nat2Z.id. exact Ex.
Qed.

Lemma random_reaches_every_element_witness :
  (1 < List.length ["a"; "b"; "c"])%nat
  /\ exists x, nth_error ["a"; "b"; "c"] 1 = Some x
       /\ random (JS.of_int 3 / JS.of_int 6)%float ["a"; "b"; "c"] = Some x.
Proof.
  split; [cbn; lia|].
  apply (random_reaches_every_element ["a"; "b"; "c"] 1); cbn; lia.
Defined.

(** Some runs of the filters. *)
Example readableDate_sample :
  readableDate {| Luxon.localOffset := fun _ => 120 |} (JSDate.TimeValue 1736899200000)
  = "2025-01-15".
Proof. vm_compute. reflexivity. Qed.

Example getAspectClass_samples :
  res (getAspectClass (sampleImage (JS.of_int 1920) (JS.of_int 1080)) "wide.jpg")
  = "aspect-landscape"
  /\ res (getAspectClass (sampleImage (JS.of_int 1080) (JS.of_int 1920)) "tall.jpg")
     = "aspect-portrait"
  /\ res (getAspectClass (sampleImage (JS.of_int 6999) (JS.of_int 10000)) "edge.jpg")
     = "aspect-portrait"
  /\ res (getAspectClass (sampleImage (JS.of_int 7000) (JS.of_int 10000)) "edge.jpg")
     = "aspect-square".
Proof. vm_compute. repeat split. Qed.

Example random_samples :
  random 0 [10; 20; 30] = Some 10
  /\ random (-0) [10; 20; 30] = Some 10
  /\ random 0.34 [10; 20; 30] = Some 20
  /\ random 0.9999999999999999 [10; 20; 30] = Some 30.
Proof. vm_compute. repeat split. Qed.
